(** * mht2html: a shallow embedding of [mht2html.py]

    The converter reads a multipart archive, splits it at its boundary
    lines, stores every resource part under a resource directory and
    rewrites the HTML part so that it refers to the stored files.

    Conventions of the embedding.
    - A Python [str] is a Rocq [string]; each character stands for one code
      point below 256, so [isspace], [lower] and the UTF-8 encoder are the
      restrictions of Python's to that range.
    - A [dict] is a [gmap]; a [bytes] value is a [list byte].
    - An exception is a value of type [exn]; a [try/except] is a [match].
    - The functions of [bs4], [base64], [os], [re] on patterns that are not
      fixed in the source, and the scheduling of the worker pool, are the
      fields of a record [Library] that every effectful definition takes. *)

From Stdlib Require Import Strings.Ascii Strings.String Strings.Byte.
From stdpp Require Import gmap strings list pretty.

Set Warnings "-register-all".
Local Open Scope string_scope.
#[local] Arguments String.append !_ _ : simpl nomatch.

(** ** Python string primitives *)

Module Str.

(** [c in s] for a one-character needle. *)
Fixpoint has_char (c : ascii) (s : string) : bool :=
  match s with
  | EmptyString => false
  | String d s' => if decide (c = d) then true else has_char c s'
  end.

(** [s.startswith(p)]. *)
Fixpoint startswith (p s : string) : bool :=
  match p, s with
  | EmptyString, _ => true
  | String a p', String b s' => if decide (a = b) then startswith p' s' else false
  | String _ _, EmptyString => false
  end.

(** [s[n:]]. *)
Fixpoint drop (n : nat) (s : string) : string :=
  match n, s with
  | O, _ => s
  | S n', String _ s' => drop n' s'
  | S _, EmptyString => EmptyString
  end.

(** [needle in s]. *)
Fixpoint contains (needle s : string) : bool :=
  if startswith needle s then true
  else match s with
       | EmptyString => false
       | String _ s' => contains needle s'
       end.

(** [s.partition(sep)] for a non-empty [sep]: head, separator found (empty
    when absent), tail. *)
Fixpoint partition (sep s : string) : string * string * string :=
  if startswith sep s then (EmptyString, sep, drop (String.length sep) s)
  else match s with
       | EmptyString => (EmptyString, EmptyString, EmptyString)
       | String c s' =>
           let '(h, m, t) := partition sep s' in (String c h, m, t)
       end.

(** [s.split(c)] for a one-character separator: never the empty list. *)
Fixpoint split (c : ascii) (s : string) : list string :=
  match s with
  | EmptyString => [EmptyString]
  | String d s' =>
      if decide (c = d) then EmptyString :: split c s'
      else match split c s' with
           | [] => [String d EmptyString]
           | w :: ws => String d w :: ws
           end
  end.

(** [str.isspace] on one code point below 256. *)
Definition isspace (c : ascii) : bool :=
  let n := nat_of_ascii c in
  (((9 <=? n) && (n <=? 13)) || ((28 <=? n) && (n <=? 32))
   || (n =? 133) || (n =? 160))%nat.

Fixpoint lstrip (s : string) : string :=
  match s with
  | EmptyString => EmptyString
  | String c s' => if isspace c then lstrip s' else s
  end.

Fixpoint rstrip (s : string) : string :=
  match s with
  | EmptyString => EmptyString
  | String c s' =>
      match rstrip s' with
      | EmptyString => if isspace c then EmptyString else String c EmptyString
      | r => String c r
      end
  end.

(** [s.strip()]. *)
Definition strip (s : string) : string := lstrip (rstrip s).

(** [str.lower] on one code point below 256: A-Z and the upper-case
    letters of the Latin-1 block move up by 32. *)
Definition lower_char (c : ascii) : ascii :=
  let n := nat_of_ascii c in
  if (((65 <=? n) && (n <=? 90)) || ((192 <=? n) && (n <=? 214))
      || ((216 <=? n) && (n <=? 222)))%nat
  then ascii_of_nat (n + 32) else c.

Fixpoint lower (s : string) : string :=
  match s with
  | EmptyString => EmptyString
  | String c s' => String (lower_char c) (lower s')
  end.

(** [sep.join(l)]. *)
Fixpoint join (sep : string) (l : list string) : string :=
  match l with
  | [] => EmptyString
  | [x] => x
  | x :: l' => x +:+ sep +:+ join sep l'
  end.

(** [s[:n]]. *)
Fixpoint take (n : nat) (s : string) : string :=
  match n, s with
  | S n', String c s' => String c (take n' s')
  | _, _ => EmptyString
  end.

(** [s.rfind(c)], with [None] for -1. *)
Fixpoint rfind (c : ascii) (s : string) : option nat :=
  match s with
  | EmptyString => None
  | String d s' =>
      match rfind c s' with
      | Some i => Some (S i)
      | None => if decide (c = d) then Some 0 else None
      end
  end.

(** Every character of [s] is [c]. *)
Fixpoint all_char (c : ascii) (s : string) : bool :=
  match s with
  | EmptyString => true
  | String d s' => if decide (c = d) then all_char c s' else false
  end.

(** [s.rstrip(c)] for a one-character set. *)
Fixpoint rstrip_char (c : ascii) (s : string) : string :=
  match s with
  | EmptyString => EmptyString
  | String d s' =>
      match rstrip_char c s' with
      | EmptyString => if decide (c = d) then EmptyString else String d EmptyString
      | r => String d r
      end
  end.

(** [s.endswith(c)] for one character. *)
Fixpoint endswith_char (c : ascii) (s : string) : bool :=
  match s with
  | EmptyString => false
  | String d EmptyString => if decide (c = d) then true else false
  | String _ s' => endswith_char c s'
  end.

(** [s.encode("utf-8")]: a code point below 128 is one byte, a code point
    from 128 to 255 is two. *)
Definition utf8_char (c : ascii) : list byte :=
  let n := nat_of_ascii c in
  if (n <? 128)%nat then [byte_of_ascii c]
  else [byte_of_ascii (ascii_of_nat (192 + n / 64));
        byte_of_ascii (ascii_of_nat (128 + n mod 64))].

Fixpoint encode_utf8 (s : string) : list byte :=
  match s with
  | EmptyString => []
  | String c s' => utf8_char c ++ encode_utf8 s'
  end.

End Str.

(** ** [os.path], POSIX flavour *)

Module Path.

(** [posixpath.basename]: [p[p.rfind('/') + 1:]]. *)
Definition basename (p : string) : string :=
  let i := match Str.rfind "/" p with Some k => S k | None => 0 end in
  Str.drop i p.

(** [posixpath.splitext]: the last dot splits the name unless only dots
    stand between the last slash and it. *)
Definition splitext (p : string) : string * string :=
  match Str.rfind "." p with
  | None => (p, EmptyString)
  | Some dotIndex =>
      let filenameIndex :=
        match Str.rfind "/" p with Some k => S k | None => 0 end in
      if (filenameIndex <=? dotIndex)%nat
         && negb (Str.all_char "."
                    (Str.take (dotIndex - filenameIndex) (Str.drop filenameIndex p)))
      then (Str.take dotIndex p, Str.drop dotIndex p)
      else (p, EmptyString)
  end.

(** [posixpath.dirname]. *)
Definition dirname (p : string) : string :=
  let i := match Str.rfind "/" p with Some k => S k | None => 0 end in
  let head := Str.take i p in
  if negb (String.eqb head EmptyString) && negb (Str.all_char "/" head)
  then Str.rstrip_char "/" head else head.

(** [posixpath.join] of two components. *)
Definition join (a b : string) : string :=
  if Str.startswith "/" b then b
  else if String.eqb a EmptyString || Str.endswith_char "/" a then a +:+ b
  else a +:+ "/" +:+ b.

End Path.


(** ** Header parser *)

(** One iteration of the loop of [parse_headers]. *)
Definition parse_header_line (headers : gmap string string) (line : string)
  : gmap string string :=
  if Str.has_char ":" line then
    let '(key, _, value) := Str.partition ":" line in
    <[Str.lower (Str.strip key) := Str.strip value]> headers
  else headers.

Definition parse_headers (headers_str : string) : gmap string string :=
  foldl parse_header_line ∅ (Str.split "010" headers_str).

(** ** Exceptions, results and the file system *)

(** The exceptions the program can meet.  The first three are the
    [ValueError]s that [process] raises itself. *)
Inductive exn :=
  | MissingBoundary
  | MissingHtml
  | HtmlNotLocated
  | TypeError
  | AttributeError
  | KeyError
  | OSError
  | DecodeError
  | RegexError
  | LibraryError.

Definition result (A : Type) : Type := exn + A.

#[global] Instance result_ret : MRet result := λ A x, inr x.
#[global] Instance result_bind : MBind result :=
  λ A B f m, match m with inl e => inl e | inr x => f x end.

(** What a run leaves on disk, in the order of the calls: a successful
    [os.makedirs(path, exist_ok=True)], which makes [path] and those of
    its ancestors that are missing, and the writing of a file. *)
Inductive fs_event :=
  | MakeDirs (path : string)
  | WriteFile (path : string) (content : list byte).

(** ** The document tree of [bs4] *)

(** An attribute value is a string, or a list of strings for the
    multi-valued attributes such as [class]. *)
Inductive attr_value :=
  | AStr (s : string)
  | AList (l : list string).

#[global] Instance attr_value_eq_dec : EqDecision attr_value.
Proof. solve_decision. Defined.

(** [Tag.attrs]: a dict, kept in insertion order. *)
Definition attrs : Type := list (string * attr_value).

Inductive node :=
  | NavigableString (s : string)
  | Tag (name : string) (a : attrs) (contents : list node).

Definition soup : Type := list node.

(** [tag.attrs.get(key)]. *)
Fixpoint attr_get (key : string) (a : attrs) : option attr_value :=
  match a with
  | [] => None
  | (k, v) :: a' => if decide (k = key) then Some v else attr_get key a'
  end.

(** [tag[key] = v]: an existing key keeps its place, a new one goes last. *)
Fixpoint attr_set (key : string) (v : attr_value) (a : attrs) : attrs :=
  match a with
  | [] => [(key, v)]
  | (k, w) :: a' =>
      if decide (k = key) then (k, v) :: a' else (k, w) :: attr_set key v a'
  end.

(** [del tag[key]], for a key that is there. *)
Fixpoint attr_del (key : string) (a : attrs) : attrs :=
  match a with
  | [] => []
  | (k, w) :: a' => if decide (k = key) then a' else (k, w) :: attr_del key a'
  end.

(** What [Tag.insert] returns: nothing up to bs4 4.12, the list of the
    inserted elements from 4.13 on. *)
Inductive insert_result := InsertReturnsNone | InsertReturnsList.

(** ** What the program takes from its libraries and its environment *)

Record Library := {
  (** [base64.b64decode(data)]; [None] when it raises. *)
  b64decode : string → option (list byte);
  (** [os.makedirs(path, exist_ok=True)] succeeds. *)
  makedirs : string → bool;
  (** [open(file_path, "wb")] in [save_resource] and the write to it
      succeed. *)
  write_resource : string → bool;
  (** [open(output_path, "w")] in [process] and the write to it succeed. *)
  write_output : string → bool;
  (** [os.path.relpath(path, start)]; it depends on the working directory. *)
  relpath : string → string → string;
  (** [re.split(pattern, text)] for a pattern outside the fragment that
      [Re.split_marker] interprets; [None] when the pattern is refused. *)
  re_split : string → string → option (list string);
  (** [BeautifulSoup(markup, "html.parser")]; the parser may reject the
      markup. *)
  BeautifulSoup : string → result soup;
  (** [str(soup)]. *)
  str_soup : soup → string;
  (** The placeholder pass [MHTProcessor.empty_msg] (lines 67-83).  It is
      tree surgery by [bs4] calls alone ([find_all], [find], [get_text],
      [insert_before], [decompose]); nothing below depends on which
      elements it replaces, so it is kept abstract. *)
  empty_msg : soup → result soup;
  (** [as_completed(futures)]: the results in the order the workers finish. *)
  as_completed : list (option (string * string)) → list (option (string * string));
  (** The installed [bs4]. *)
  tag_insert : insert_result
}.

(** ** Resource extractor *)

Definition CONTENT_TYPE_MAP : gmap string string :=
  list_to_map [("image/jpeg", "jpg"); ("image/png", "png"); ("image/gif", "gif")].

(** [content_type.split("/")[-1].split("+")[-1]]. *)
Definition subtype_suffix (content_type : string) : string :=
  List.last (Str.split "+" (List.last (Str.split "/" content_type) EmptyString))
    EmptyString.

(** [CONTENT_TYPE_MAP.get(content_type, ...)]. *)
Definition extension_of (content_type : string) : string :=
  default (subtype_suffix content_type) (CONTENT_TYPE_MAP !! content_type).

(** The body of the [try] of [save_resource] (lines 35-58).  The location is
    [None] when the caller found no such header; [os.path.basename(None)]
    raises.  The progress callback only drives the console. *)
Definition save_resource_try (L : Library)
    (content_location : option string) (content_type data encoding resource_dir : string)
  : list fs_event * result (string * string) :=
  match content_location with
  | None => ([], inl TypeError)
  | Some location =>
      let original_name := Path.basename location in
      let base_name := fst (Path.splitext original_name) in
      let extension := extension_of content_type in
      if negb (makedirs L resource_dir) then ([], inl OSError)
      else
        let filename := base_name +:+ "." +:+ extension in
        let file_path := Path.join resource_dir filename in
        let decoded :=
          if String.eqb encoding "base64" then b64decode L data
          else Some (Str.encode_utf8 data) in
        match decoded with
        | None => ([MakeDirs resource_dir], inl DecodeError)
        | Some content =>
            if write_resource L file_path
            then ([MakeDirs resource_dir; WriteFile file_path content],
                  inr (location, file_path))
            else ([MakeDirs resource_dir], inl OSError)
        end
  end.

(** [save_resource]: [except Exception] turns every failure into [None]. *)
Definition save_resource (L : Library)
    (content_location : option string) (content_type data encoding resource_dir : string)
  : list fs_event * option (string * string) :=
  match save_resource_try L content_location content_type data encoding resource_dir with
  | (events, inl _) => (events, None)
  | (events, inr r) => (events, Some r)
  end.

(** ** Walking the tree *)

(** [soup.find_all(...)] lists the matching tags in document order and the
    loop body then updates the attributes of each in turn.  [visit] is that
    loop: [f] sees the loop state and one tag (name and attributes) and
    gives the new state and attributes, or raises. *)
Section visit.
Context {St : Type} (f : St → string → attrs → result (St * attrs)).

Fixpoint visit_node (st : St) (n : node) {struct n} : result (St * node) :=
  match n with
  | NavigableString _ => inr (st, n)
  | Tag name a contents =>
      '(st1, a') ← f st name a;
      '(st2, contents') ←
        (fix visit_list (st : St) (l : list node) {struct l} : result (St * list node) :=
           match l with
           | [] => inr (st, [])
           | c :: l' =>
               '(st', c') ← visit_node st c;
               '(st'', l'') ← visit_list st' l';
               inr (st'', c' :: l'')
           end) st1 contents;
      inr (st2, Tag name a' contents')
  end.

Fixpoint visit (st : St) (l : soup) : result (St * soup) :=
  match l with
  | [] => inr (st, [])
  | c :: l' =>
      '(st', c') ← visit_node st c;
      '(st'', l'') ← visit st' l';
      inr (st'', c' :: l'')
  end.
End visit.

(** The tags of a tree in document order, as [find_all(True)] lists them. *)
Fixpoint tags_node (n : node) : list (string * attrs) :=
  match n with
  | NavigableString _ => []
  | Tag name a contents => (name, a) :: flat_map tags_node contents
  end.

Definition tags (l : soup) : list (string * attrs) := flat_map tags_node l.

(** The tree without its attributes: names, nesting and text. *)
Fixpoint skeleton_node (n : node) : node :=
  match n with
  | NavigableString s => NavigableString s
  | Tag name _ contents => Tag name [] (List.map skeleton_node contents)
  end.

Definition skeleton (l : soup) : soup := List.map skeleton_node l.

(** ** Style pass *)

Record style_state := {
  style_map : gmap string string;
  css_rules : list string;
  counter : nat
}.

Definition style_start : style_state :=
  {| style_map := ∅; css_rules := []; counter := 1 |}.

(** [f"i-style-{counter}"]. *)
Definition class_name (counter : nat) : string := "i-style-" +:+ pretty counter.

(** [f".{class_name} {{ {original_style} }}"]. *)
Definition css_rule (class_name original_style : string) : string :=
  "." +:+ class_name +:+ " { " +:+ original_style +:+ " }".

(** Lines 95-99: a style seen for the first time gets the next class. *)
Definition remember_style (st : style_state) (original_style : string) : style_state :=
  match style_map st !! original_style with
  | Some _ => st
  | None =>
      let class_name := class_name (counter st) in
      {| style_map := <[original_style := class_name]> (style_map st);
         css_rules := (css_rules st ++ [css_rule class_name original_style])%list;
         counter := counter st + 1 |}
  end.

(** One iteration of the loop of [process_styles] (lines 91-102); a tag
    without a [style] attribute is not in [find_all(style=True)]. *)
Definition style_step (st : style_state) (name : string) (a : attrs)
  : result (style_state * attrs) :=
  match attr_get "style" a with
  | None => inr (st, a)
  | Some (AList _) => inl AttributeError
  | Some (AStr raw) =>
      let original_style := Str.strip raw in
      if String.eqb original_style EmptyString then inr (st, a)
      else
        let st' := remember_style st original_style in
        match attr_get "class" a, style_map st' !! original_style with
        | Some (AStr _), _ => inl TypeError
        | _, None => inl KeyError
        | Some (AList classes), Some c =>
            inr (st', attr_del "style" (attr_set "class" (AList (classes ++ [c])%list) a))
        | None, Some c =>
            inr (st', attr_del "style" (attr_set "class" (AList [c]) a))
        end
  end.

(** [process_styles]: the tree after the pass and the style sheet. *)
Definition process_styles (l : soup) : result (soup * string) :=
  '(st, l') ← visit style_step style_start l;
  inr (l', Str.join (String "010" EmptyString) (css_rules st)).

(** ** Reference pass *)

(** One iteration of the loop of [update_references] (lines 114-121). *)
Definition reference_step (L : Library) (resource_map : gmap string string)
    (output_path : string) (_ : unit) (name : string) (a : attrs)
  : result (unit * attrs) :=
  if bool_decide (name ∈ ["img"; "link"; "script"]) then
    let attr := if String.eqb name "img" then "src" else "href" in
    match default (AStr EmptyString) (attr_get attr a) with
    | AList _ => inl TypeError
    | AStr value =>
        match resource_map !! value with
        | Some resource_path =>
            if String.eqb resource_path EmptyString then inr (tt, a)
            else
              let relative_path :=
                relpath L resource_path (Path.dirname output_path) in
              inr (tt, attr_set attr (AStr relative_path) a)
        | None => inr (tt, a)
        end
    end
  else inr (tt, a).

Definition update_references (L : Library) (l : soup)
    (resource_map : gmap string string) (output_path : string) : result soup :=
  '(_, l') ← visit (reference_step L resource_map output_path) tt l;
  inr l'.

(** ** Style sheet injection *)

(** [g] applied to the contents of the first tag called [name], in document
    order; [None] when there is no such tag ([soup.find(name)] is [None]). *)
Section on_first.
Context (name : string) (g : list node → list node).

Fixpoint on_first_node (n : node) : option node :=
  match n with
  | NavigableString _ => None
  | Tag nm a contents =>
      if decide (nm = name) then Some (Tag nm a (g contents))
      else
        Tag nm a <$>
          (fix on_first_list (l : list node) : option (list node) :=
             match l with
             | [] => None
             | c :: l' =>
                 match on_first_node c with
                 | Some c' => Some (c' :: l')
                 | None => cons c <$> on_first_list l'
                 end
             end) contents
  end.

Fixpoint on_first (l : soup) : option soup :=
  match l with
  | [] => None
  | c :: l' =>
      match on_first_node c with
      | Some c' => Some (c' :: l')
      | None => cons c <$> on_first l'
      end
  end.
End on_first.

(** [soup.new_tag("style", type="text/css")] with [string = css_content]. *)
Definition style_tag (css_content : string) : node :=
  Tag "style" [("type", AStr "text/css")] [NavigableString css_content].

(** Lines 201-207. *)
Definition inject_stylesheet (L : Library) (css_content : string) (l : soup)
  : result soup :=
  if String.eqb css_content EmptyString then inr l
  else
    match on_first "head" (λ contents, (contents ++ [style_tag css_content])%list) l with
    | Some l' => inr l'
    | None =>
        (* [soup.html.insert(0, soup.new_tag("head"))], then [.append] on
           what [insert] returned *)
        match on_first "html" (λ contents, Tag "head" [] [] :: contents) l with
        | None => inl AttributeError
        | Some l' =>
            match tag_insert L with
            | InsertReturnsNone => inl AttributeError
            | InsertReturnsList => inr l'
            end
        end
    end.

(** ** The three regular expressions of [process] *)

Module Re.

Definition LF : string := String "010" EmptyString.
Definition CR : string := String "013" EmptyString.
Definition DQUOTE : string := String "034" EmptyString.

(** [p] removed from the front of [s]. *)
Definition strip_prefix (p s : string) : option string :=
  if Str.startswith p s then Some (Str.drop (String.length p) s) else None.

(** The longest prefix of [s] without [c], and what follows it. *)
Fixpoint span_not (c : ascii) (s : string) : string * string :=
  match s with
  | EmptyString => (EmptyString, EmptyString)
  | String d s' =>
      if decide (c = d) then (EmptyString, s)
      else let '(run, rest) := span_not c s' in (String d run, rest)
  end.

(** A match of the boundary pattern of line 137 (the word boundary, an
    equals sign, a quote, the group of one or more non-quote characters,
    a quote) at the front of [s]: group 1.  The class takes every
    character up to the next quote, so the match needs that run to be
    non-empty and a quote to follow it. *)
Definition boundary_here (s : string) : option string :=
  rest ← strip_prefix ("boundary=" +:+ DQUOTE) s;
  let '(token, rest') := span_not "034" rest in
  if negb (String.eqb token EmptyString) && Str.startswith DQUOTE rest'
  then Some token else None.

(** [re.search] with that pattern, then [group(1)]: the leftmost match. *)
Fixpoint search_boundary (s : string) : option string :=
  match boundary_here s with
  | Some b => Some b
  | None =>
      match s with
      | EmptyString => None
      | String _ s' => search_boundary s'
      end
  end.

(** The boundary is pasted into the pattern as it is.  A character that
    [re] reads as itself is a literal, a dot matches every character but
    the line feed; any other special character sends the whole pattern to
    the library. *)
Inductive atom := Lit (c : ascii) | Dot.

Definition special (c : ascii) : bool :=
  Str.has_char c "\^$.|?*+()[]{}".

Fixpoint atoms (boundary : string) : option (list atom) :=
  match boundary with
  | EmptyString => Some []
  | String c b' =>
      if decide (c = "."%char) then cons Dot <$> atoms b'
      else if special c then None
      else cons (Lit c) <$> atoms b'
  end.

Fixpoint match_atoms (p : list atom) (s : string) : option string :=
  match p, s with
  | [], _ => Some s
  | Lit c :: p', String d s' => if decide (c = d) then match_atoms p' s' else None
  | Dot :: p', String d s' => if decide (d = "010"%char) then None else match_atoms p' s'
  | _ :: _, EmptyString => None
  end.

(** The length of the match of [--{boundary}(?:--)?\n] at the front of
    [s]; the optional group is tried first. *)
Definition match_marker (b : list atom) (s : string) : option nat :=
  r0 ← strip_prefix "--" s;
  r1 ← match_atoms b r0;
  match strip_prefix "--" r1 ≫= strip_prefix LF with
  | Some _ => Some (2 + length b + 2 + 1)
  | None => strip_prefix LF r1 ≫= λ _, Some (2 + length b + 1)
  end.

(** [re.split] on that pattern: [skip] characters of a match are still to
    be dropped. *)
Fixpoint split_marker (b : list atom) (skip : nat) (s : string) {struct s}
  : list string :=
  match s with
  | EmptyString => [EmptyString]
  | String c s' =>
      match skip with
      | S k => split_marker b k s'
      | O =>
          match match_marker b s with
          | Some (S k) => EmptyString :: split_marker b k s'
          | _ =>
              match split_marker b 0 s' with
              | w :: ws => String c w :: ws
              | [] => [String c EmptyString]
              end
          end
      end
  end.

(** Group 1 of [(.*?)(?=\n--|$)] with [DOTALL], matched from the front of
    [s]: the lazy star stops at the first place where a line feed and two
    dashes follow, or the text ends, or only its last line feed is left. *)
Fixpoint lazy_body (s : string) : string :=
  if Str.startswith (LF +:+ "--") s then EmptyString
  else match s with
       | EmptyString => EmptyString
       | String c s' =>
           if String.eqb s LF then EmptyString else String c (lazy_body s')
       end.

(** [re.search] with the pattern of line 147, then [group(1)]: the
    leftmost blank line, LF LF or CR LF CR LF, and the lazy group. *)
Fixpoint search_html (s : string) : option string :=
  if Str.startswith (LF +:+ LF) s then Some (lazy_body (Str.drop 2 s))
  else if Str.startswith (CR +:+ LF +:+ CR +:+ LF) s
       then Some (lazy_body (Str.drop 4 s))
  else match s with
       | EmptyString => None
       | String _ s' => search_html s'
       end.

End Re.

(** ** Orchestrator *)

(** [re.split(rf"--{boundary}(?:--)?\n", content)]. *)
Definition split_parts (L : Library) (boundary content : string)
  : option (list string) :=
  match Re.atoms boundary with
  | Some b => Some (Re.split_marker b 0 content)
  | None => re_split L ("--" +:+ boundary +:+ "(?:--)?\n") content
  end.

(** The arguments of one submitted [save_resource] call. *)
Record job := {
  job_location : option string;
  job_type : string;
  job_data : string;
  job_encoding : string
}.

(** One iteration of the submitting loop (lines 170-193): the call it
    submits, if any. *)
Definition resource_job (part : string) : option job :=
  if negb (Str.contains "Content-Location:" part) then None
  else
    let '(headers_str, _, body) := Str.partition (Re.LF +:+ Re.LF) part in
    let headers := parse_headers headers_str in
    let content_location := headers !! "content-location" in
    let content_type :=
      List.hd EmptyString
        (Str.split ";" (default EmptyString (headers !! "content-type"))) in
    let encoding := default "7bit" (headers !! "content-transfer-encoding") in
    if Str.startswith "text/html" content_type then None
    else Some {| job_location := content_location; job_type := content_type;
                 job_data := Str.strip body; job_encoding := encoding |}.

Definition run_job (L : Library) (resource_dir : string) (j : job)
  : list fs_event * option (string * string) :=
  save_resource L (job_location j) (job_type j) (job_data j) (job_encoding j)
    resource_dir.

(** Lines 195-197: the results that are not [None] fill the map, in the
    order given. *)
Definition collect (results : list (option (string * string)))
  : gmap string string :=
  foldl (λ resource_map r,
           match r with
           | Some (location, file_path) => <[location := file_path]> resource_map
           | None => resource_map
           end) ∅ results.

(** Lines 137-150: the boundary, the parts, the HTML part and its body. *)
Definition locate_html (L : Library) (content : string)
  : result (list string * string) :=
  match Re.search_boundary content with
  | None => inl MissingBoundary
  | Some boundary =>
      match split_parts L boundary content with
      | None => inl RegexError
      | Some parts =>
          match List.find (Str.contains "Content-Type: text/html") parts with
          | None => inl MissingHtml
          | Some html_part =>
              match Re.search_html html_part with
              | None => inl HtmlNotLocated
              | Some body => inr (parts, Str.strip body)
              end
          end
      end
  end.

(** Lines 156-197: every submitted call, and the map filled from the
    results as they complete.  The events of the workers are listed in the
    order of submission. *)
Definition extract_resources (L : Library) (parts : list string)
    (resource_dir : string) : list fs_event * gmap string string :=
  let runs := List.map (run_job L resource_dir) (omap resource_job parts) in
  (concat (List.map fst runs), collect (as_completed L (List.map snd runs))).

(** The body of the [try] of [process] (lines 132-214).  [file] is what
    reading [mht_path] gave, [None] when it raised. *)
Definition process_try (L : Library) (file : option string)
    (output_path resource_dir : string) : list fs_event * result unit :=
  match file with
  | None => ([], inl OSError)
  | Some content =>
      match
        '(parts, html) ← locate_html L content;
        l0 ← BeautifulSoup L html;
        l ← empty_msg L l0;
        '(l', css_content) ← process_styles l;
        inr (parts, l', css_content)
      with
      | inl e => ([], inl e)
      | inr (parts, l, css_content) =>
          let resource_dir := Path.join (Path.dirname output_path) resource_dir in
          let '(events, resource_map) := extract_resources L parts resource_dir in
          match
            l' ← update_references L l resource_map output_path;
            inject_stylesheet L css_content l'
          with
          | inl e => (events, inl e)
          | inr l' =>
              if write_output L output_path
              then ((events ++ [WriteFile output_path (Str.encode_utf8 (str_soup L l'))])%list,
                    inr ())
              else (events, inl OSError)
          end
      end
  end.

(** [process]: [True] or, after any exception, [False]. *)
Definition process (L : Library) (file : option string)
    (output_path resource_dir : string) : bool * list fs_event :=
  match process_try L file output_path resource_dir with
  | (events, inl _) => (false, events)
  | (events, inr _) => (true, events)
  end.

(** Lines 161-167: one iteration of the loop that counts the resources
    for the total of the progress bar, and the loop. *)
Definition count_resource (total_resources : nat) (part : string) : nat :=
  if negb (Str.contains "Content-Location:" part) then total_resources
  else
    let '(headers_str, _, body) := Str.partition (Re.LF +:+ Re.LF) part in
    let headers := parse_headers headers_str in
    match headers !! "content-location" with
    | Some location =>
        if String.eqb location EmptyString then total_resources
        else (total_resources + 1)%nat
    | None => total_resources
    end.

Definition total_resources (parts : list string) : nat :=
  foldl count_resource 0%nat parts.

(** ** Vocabulary of the statements *)

(** [t] is the last of the pieces that the separator [c] cuts [s] into. *)
Definition final_segment (c : ascii) (s t : string) : Prop :=
  Str.has_char c t = false ∧
  ∃ pre, s = pre +:+ t ∧ (pre = EmptyString ∨ Str.endswith_char c pre = true).

(** [base] is [name] without its extension.  The extension starts at the
    last dot of [name], provided some character other than a dot stands
    before that dot; otherwise [name] has no extension. *)
Definition without_extension (name base : string) : Prop :=
  (∃ e, name = base +:+ "." +:+ e ∧ Str.has_char "." e = false ∧
        Str.all_char "." base = false) ∨
  (name = base ∧
   ∀ b e, name = b +:+ "." +:+ e → Str.has_char "." e = false →
          Str.all_char "." b = true).

(** The loop of [visit] on the tags alone. *)
Fixpoint run {St : Type} (f : St → string → attrs → result (St * attrs)) (st : St)
    (ts : list (string * attrs)) : result (St * list (string * attrs)) :=
  match ts with
  | [] => inr (st, [])
  | (name, a) :: ts' =>
      '(st1, a') ← f st name a;
      '(st2, ts'') ← run f st1 ts';
      inr (st2, (name, a') :: ts'')
  end.

(** The walk is the loop over the tags, and changes attributes only. *)
Definition walk_agrees {St A : Type} (f : St → string → attrs → result (St * attrs))
    (tg : A → list (string * attrs)) (sk : A → A)
    (st : St) (x : A) (r : result (St * A)) : Prop :=
  match r with
  | inl e => run f st (tg x) = inl e
  | inr (st', x') => run f st (tg x) = inr (st', tg x') ∧ sk x' = sk x
  end.

(** What [html.parser] guarantees for the attributes that the passes read:
    [class] is a list, [style], [src] and [href] are strings. *)
Definition parsed_attrs (a : attrs) : Prop :=
  (∀ s, attr_get "class" a ≠ Some (AStr s)) ∧
  ∀ key l, key ∈ ["style"; "src"; "href"] → attr_get key a ≠ Some (AList l).

Definition parsed (l : soup) : Prop := Forall (λ t, parsed_attrs t.2) (tags l).

(** The inline style of a tag as the style pass reads it: trimmed, and
    none when nothing is left. *)
Definition inline_style (a : attrs) : option string :=
  match attr_get "style" a with
  | Some (AStr raw) =>
      if String.eqb (Str.strip raw) EmptyString then None else Some (Str.strip raw)
  | _ => None
  end.

(** The inline styles of a tree in document order. *)
Definition inline_styles (l : soup) : list string :=
  omap (λ t, inline_style t.2) (tags l).

(** The distinct elements of a list in the order of their first
    occurrence. *)
Definition see (seen : list string) (s : string) : list string :=
  if decide (s ∈ seen) then seen else (seen ++ [s])%list.

Definition first_seen (l : list string) : list string := foldl see [] l.

(** The state of the style pass after the distinct styles [seen], in the
    order in which they were first met. *)
Definition style_inv (seen : list string) (st : style_state) : Prop :=
  NoDup seen ∧
  counter st = S (length seen) ∧
  css_rules st = imap (λ i s, css_rule (class_name (S i)) s) seen ∧
  ∀ s c, style_map st !! s = Some c ↔ ∃ i, seen !! i = Some s ∧ c = class_name (S i).

(** The classes of a tag, none when it has no [class] attribute. *)
Definition classes_of (a : attrs) : list string :=
  match attr_get "class" a with
  | Some (AList l) => l
  | _ => []
  end.

(** What the style pass does to the attributes of a tag whose inline style
    got the class [c]. *)
Definition restyled (c : string) (a : attrs) : attrs :=
  attr_del "style" (attr_set "class" (AList (classes_of a ++ [c])) a).

(** The attribute through which a tag refers to a resource, and the value
    the reference pass reads there: the empty string when absent. *)
Definition reference_attr (name : string) : string :=
  if String.eqb name "img" then "src" else "href".

Definition reference_value (name : string) (a : attrs) : attr_value :=
  default (AStr EmptyString) (attr_get (reference_attr name) a).

(** Follows the specification's words for the body of the HTML part: the
    text after the first blank line of the part, to the end of the part
    (the part ends where the next boundary marker or the input's end is),
    trimmed. *)
Fixpoint after_blank_line (s : string) : option string :=
  if Str.startswith (Re.LF +:+ Re.LF) s then Some (Str.drop 2 s)
  else if Str.startswith (Re.CR +:+ Re.LF +:+ Re.CR +:+ Re.LF) s
       then Some (Str.drop 4 s)
  else match s with
       | EmptyString => None
       | String _ s' => after_blank_line s'
       end.

Definition html_body_as_specified (part : string) : option string :=
  Str.strip <$> after_blank_line part.

(** Two libraries that may differ in whatever decides the fate of a
    resource (the decoder, the resource directory and files, the order of
    completion) and in how paths and trees are printed, and in nothing
    else. *)
Definition same_but_resources (L L' : Library) : Prop :=
  (∀ pattern text, re_split L pattern text = re_split L' pattern text) ∧
  (∀ markup, BeautifulSoup L markup = BeautifulSoup L' markup) ∧
  (∀ l, empty_msg L l = empty_msg L' l) ∧
  tag_insert L = tag_insert L' ∧
  (∀ path, write_output L path = write_output L' path).

(** The path under which [save_resource] stores a location. *)
Definition resource_path (resource_dir location content_type : string) : string :=
  Path.join resource_dir
    (fst (Path.splitext (Path.basename location)) +:+ "." +:+ extension_of content_type).

(** ** A sample library and sample documents *)

Definition b64_digit (c : ascii) : option nat :=
  let n := nat_of_ascii c in
  if ((65 <=? n) && (n <=? 90))%nat then Some (n - 65)
  else if ((97 <=? n) && (n <=? 122))%nat then Some (n - 71)
  else if ((48 <=? n) && (n <=? 57))%nat then Some (n + 4)
  else if (n =? 43)%nat then Some 62
  else if (n =? 47)%nat then Some 63
  else None.

Definition byte_of (n : nat) : byte := byte_of_ascii (ascii_of_nat n).

(** A strict decoder of padded base64, for the sample library only. *)
Fixpoint sample_b64decode (s : string) : option (list byte) :=
  match s with
  | EmptyString => Some []
  | String a (String b (String c (String d rest))) =>
      x ← b64_digit a; y ← b64_digit b;
      match b64_digit c, b64_digit d with
      | Some z, Some w =>
          cons (byte_of (x * 4 + y / 16)) ∘ cons (byte_of (y mod 16 * 16 + z / 4))
            ∘ cons (byte_of (z mod 4 * 64 + w)) <$> sample_b64decode rest
      | Some z, None =>
          if decide (d = "="%char ∧ rest = EmptyString)
          then Some [byte_of (x * 4 + y / 16); byte_of (y mod 16 * 16 + z / 4)]
          else None
      | None, _ =>
          if decide (c = "="%char ∧ d = "="%char ∧ rest = EmptyString)
          then Some [byte_of (x * 4 + y / 16)]
          else None
      end
  | _ => None
  end.

(** A library for the examples: every directory and file can be written,
    the workers complete in the order of submission, the parser gives one
    fixed tree and the placeholder pass finds nothing to replace. *)
Definition sample_library (l : soup) : Library := {|
  b64decode := sample_b64decode;
  makedirs := λ _, true;
  write_resource := λ _, true;
  write_output := λ _, true;
  relpath := λ path _, path;
  re_split := λ _ _, None;
  BeautifulSoup := λ _, inr l;
  str_soup := λ _, EmptyString;
  empty_msg := λ l, inr l;
  as_completed := λ results, results;
  tag_insert := InsertReturnsNone
|}.

(** Two paragraphs whose styles differ by a leading space only, and a
    third with a style of its own. *)
Definition sample_styled : soup :=
  [Tag "html" []
     [Tag "head" [] [];
      Tag "body" []
        [Tag "p" [("style", AStr "color:red")] [NavigableString "a"];
         Tag "p" [("class", AList ["note"]); ("style", AStr " color:red")]
           [NavigableString "b"];
         Tag "p" [("style", AStr "margin:0")] []]]].

(** An archive with the boundary X whose HTML part holds a comment that
    closes on a line of its own. *)
Definition dashed_archive : string :=
  "MIME-Version: 1.0
Content-Type: multipart/related; boundary=" +:+ Re.DQUOTE +:+ "X" +:+ Re.DQUOTE +:+ "

--X
Content-Type: text/html

<html>
<!-- saved page
-->
<body>hi</body>
</html>
--X--
".

(** An archive with the boundary X.Y: a page and two images, the second
    of which is not base64 (three characters without padding). *)
Definition sample_archive : string :=
  "MIME-Version: 1.0
Content-Type: multipart/related; boundary=" +:+ Re.DQUOTE +:+ "X.Y" +:+ Re.DQUOTE +:+ "

--X.Y
Content-Type: text/html

<html><head></head><body><img src=a.jpg><img src=b.png><p style=color:red>hi</p></body></html>
--X.Y
Content-Type: image/jpeg
Content-Transfer-Encoding: base64
Content-Location: a.jpg

/9j/4A==
--X.Y
Content-Type: image/png
Content-Transfer-Encoding: base64
Content-Location: b.png

abc
--X.Y--
".

(** The tree of the page of [sample_archive]. *)
Definition sample_page : soup :=
  [Tag "html" []
     [Tag "head" [] [];
      Tag "body" []
        [Tag "img" [("src", AStr "a.jpg")] [];
         Tag "img" [("src", AStr "b.png")] [];
         Tag "p" [("style", AStr "color:red")] [NavigableString "hi"]]]].

(** An archive whose page has an inline style and no head. *)
Definition headless_archive : string :=
  "MIME-Version: 1.0
Content-Type: multipart/related; boundary=" +:+ Re.DQUOTE +:+ "X" +:+ Re.DQUOTE +:+ "

--X
Content-Type: text/html

<html><body><p style=color:red>hi</p></body></html>
--X--
".

Definition headless_page : soup :=
  [Tag "html" []
     [Tag "body" [] [Tag "p" [("style", AStr "color:red")] [NavigableString "hi"]]]].

(** The sample library with workers that complete in the reverse of the
    order of submission. *)
Definition reversed_library (l : soup) : Library := {|
  b64decode := sample_b64decode;
  makedirs := λ _, true;
  write_resource := λ _, true;
  write_output := λ _, true;
  relpath := λ path _, path;
  re_split := λ _ _, None;
  BeautifulSoup := λ _, inr l;
  str_soup := λ _, EmptyString;
  empty_msg := λ l, inr l;
  as_completed := λ results, rev results;
  tag_insert := InsertReturnsNone
|}.

(** Three resource parts, the first two with the same location and
    content type and different bodies. *)
Definition shared_parts : list string :=
  ["Content-Type: image/jpeg
Content-Transfer-Encoding: base64
Content-Location: a.jpg

/9j/4A==
";
   "Content-Type: image/jpeg
Content-Transfer-Encoding: base64
Content-Location: a.jpg

/9g=
";
   "Content-Type: image/png
Content-Transfer-Encoding: base64
Content-Location: b.png

iVBO
"].

(** A call of [save_resource] that stored a resource with a non-empty
    location. *)
Definition saved_located (r : option (string * string)) : bool :=
  match r with
  | Some (location, _) => negb (String.eqb location EmptyString)
  | None => false
  end.

(** A tree with one node left out: the hole stands among the nodes of the
    top level, or inside a tag of the top level. *)
Inductive context :=
  | Here (before after : list node)
  | Inside (before : list node) (name : string) (a : attrs) (c : context)
      (after : list node).

(** The tree that has [n] where the context has its hole. *)
Fixpoint plug (c : context) (n : node) : soup :=
  match c with
  | Here before after => (before ++ n :: after)%list
  | Inside before name a c' after =>
      (before ++ Tag name a (plug c' n) :: after)%list
  end.

(** The tags that stand before the hole in document order: those of the
    nodes to its left at every level, and the tags around it. *)
Fixpoint before_hole (c : context) : list (string * attrs) :=
  match c with
  | Here before _ => tags before
  | Inside before name a c' _ => (tags before ++ (name, a) :: before_hole c')%list
  end.

(** The attributes of every tag form a dict: no key occurs twice. *)
Definition dict_keys (l : soup) : Prop := Forall (λ t, NoDup t.2.*1) (tags l).

(** A text put together again from its first part and the later parts,
    each with the marker that stood before it. *)
Fixpoint weave (first : string) (rest : list (string * string)) : string :=
  match rest with
  | [] => first
  | (marker, part) :: rest' => first +:+ marker +:+ weave part rest'
  end.

(** The first part and the later parts, each with its marker, are what
    the split at the boundary markers gives: each marker is a match of
    the marker pattern where it stands, and no match starts inside the
    part before it. *)
Fixpoint cut_at_markers (b : list Re.atom) (first : string)
    (rest : list (string * string)) : Prop :=
  (∀ i, (i < String.length first)%nat →
        Re.match_marker b (Str.drop i (weave first rest)) = None) ∧
  match rest with
  | [] => True
  | (marker, part) :: rest' =>
      Re.match_marker b (marker +:+ weave part rest') = Some (String.length marker) ∧
      cut_at_markers b part rest'
  end.

(** * Properties *)

(** ** Strings *)

Lemma has_char_app c s t :
  Str.has_char c (s +:+ t) = Str.has_char c s || Str.has_char c t.
Proof. induction s as [|d s IH]; simpl; [done|]. by case_decide. Qed.

Lemma partition_at_first c key rest :
  Str.has_char c key = false →
  Str.partition (String c EmptyString) (key +:+ String c rest)
  = (key, String c EmptyString, rest).
Proof.
  intros Hkey. induction key as [|d key IH]; simpl in *.
  - rewrite decide_True by done. by destruct rest.
  - case_decide; [done|]. by rewrite IH.
Qed.

Lemma has_char_split c s :
  Str.has_char c s = true →
  ∃ key rest, s = key +:+ String c rest ∧ Str.has_char c key = false.
Proof.
  induction s as [|d s IH]; simpl; [done|]. case_decide as Hd.
  - subst d. intros _. by exists EmptyString, s.
  - intros [key [rest [-> Hkey]]]%IH. exists (String d key), rest.
    split; [done|]. simpl. by rewrite decide_False.
Qed.

Lemma first_char_unique c key rest key' rest' :
  key +:+ String c rest = key' +:+ String c rest' →
  Str.has_char c key = false → Str.has_char c key' = false →
  key = key' ∧ rest = rest'.
Proof.
  revert key'. induction key as [|d key IH]; intros [|d' key']; simpl.
  - by intros [= ->].
  - intros [= <- _] _. by rewrite decide_True.
  - intros [= -> _]. by rewrite decide_True.
  - intros [= <- Heq]. case_decide; [done|]. intros Hk Hk'.
    by destruct (IH _ Heq Hk Hk') as [-> ->].
Qed.

Lemma split_is_cons c s : ∃ w ws, Str.split c s = w :: ws.
Proof.
  induction s as [|d s [w [ws IH]]]; simpl; [by eauto|].
  case_decide; [by eauto|]. rewrite IH. by eauto.
Qed.

Lemma join_cons sep x y l :
  Str.join sep (x :: y :: l) = x +:+ sep +:+ Str.join sep (y :: l).
Proof. done. Qed.

Lemma join_split c s : Str.join (String c EmptyString) (Str.split c s) = s.
Proof.
  induction s as [|d s IH]; simpl; [done|].
  destruct (split_is_cons c s) as [w [ws Hs]]. rewrite Hs in IH |- *.
  case_decide as Hd.
  - subst d. rewrite join_cons, IH. done.
  - destruct ws as [|y ws]; [by rewrite <-IH|].
    rewrite join_cons in IH |- *. by rewrite <-IH.
Qed.

Lemma split_no_sep c s : Forall (λ w, Str.has_char c w = false) (Str.split c s).
Proof.
  induction s as [|d s IH]; simpl; [by repeat constructor|]. case_decide.
  - by constructor.
  - destruct (split_is_cons c s) as [w [ws Hs]]. rewrite Hs in IH |- *.
    inversion_clear IH. constructor; [|done]. simpl. by rewrite decide_False.
Qed.

Lemma split_app_line c s w :
  Str.has_char c w = false →
  Str.split c (s +:+ String c w) = (Str.split c s ++ [w])%list.
Proof.
  intros Hw. induction s as [|d s IH]; simpl.
  - rewrite decide_True by done. f_equal.
    clear -Hw. induction w as [|e w IH]; simpl in *; [done|].
    case_decide; [done|]. by rewrite IH.
  - case_decide; rewrite IH; [done|].
    by destruct (split_is_cons c s) as [x [xs ->]].
Qed.

Lemma app_assoc_str s t u : (s +:+ t) +:+ u = s +:+ (t +:+ u).
Proof. induction s as [|c s IH]; simpl; by rewrite ?IH. Qed.

Lemma endswith_char_app c s : Str.endswith_char c (s +:+ String c EmptyString) = true.
Proof.
  induction s as [|d s IH]; simpl; [by rewrite decide_True|].
  destruct (s +:+ String c EmptyString) eqn:E; [by destruct s|done].
Qed.

Lemma rfind_None c s : Str.rfind c s = None ↔ Str.has_char c s = false.
Proof.
  induction s as [|d s IH]; simpl; [done|].
  destruct (Str.rfind c s) as [i|]; case_decide; try done.
  split; [done|]. intros Hno. by apply IH in Hno.
Qed.

Lemma rfind_Some c s i :
  Str.rfind c s = Some i →
  Str.take i s +:+ String c (Str.drop (S i) s) = s ∧
  Str.has_char c (Str.drop (S i) s) = false.
Proof.
  revert i. induction s as [|d s IH]; intros i; simpl; [done|].
  destruct (Str.rfind c s) as [k|] eqn:Hr.
  - intros [= <-]. destruct (IH k eq_refl) as [Heq Hno].
    change (String d (Str.take k s +:+ String c (Str.drop (S k) s)) = String d s
            ∧ Str.has_char c (Str.drop (S k) s) = false).
    split; [by rewrite Heq|done].
  - case_decide; [|done]. intros [= <-]. subst d.
    change (String c s = String c s ∧ Str.has_char c s = false).
    split; [done|]. by apply rfind_None.
Qed.

Lemma last_char_unique c b e b' e' :
  b +:+ String c e = b' +:+ String c e' →
  Str.has_char c e = false → Str.has_char c e' = false →
  b = b' ∧ e = e'.
Proof.
  revert b'. induction b as [|d b IH]; intros [|d' b']; simpl.
  - by intros [= ->].
  - intros [= <- ->] He. rewrite has_char_app in He. simpl in He.
    rewrite decide_True in He by done. by rewrite orb_true_r in He.
  - intros [= -> <-] _ He. rewrite has_char_app in He. simpl in He.
    rewrite decide_True in He by done. by rewrite orb_true_r in He.
  - intros [= <- Heq] He He'. by destruct (IH _ Heq He He') as [-> ->].
Qed.

(** [s[s.rfind(c) + 1:]] is the last piece of [s]. *)
Lemma after_last_final c s :
  final_segment c s
    (Str.drop (match Str.rfind c s with Some k => S k | None => 0 end) s).
Proof.
  destruct (Str.rfind c s) as [i|] eqn:Hr.
  - destruct (rfind_Some _ _ _ Hr) as [Heq Hno]. split; [done|].
    exists (Str.take i s +:+ String c EmptyString). split.
    + by rewrite app_assoc_str.
    + right. apply endswith_char_app.
  - split; [by apply rfind_None|]. exists EmptyString. by split; [|left].
Qed.

Lemma final_segment_unique c s t t' :
  final_segment c s t → final_segment c s t' → t = t'.
Proof.
  assert (∀ pre, Str.endswith_char c pre = true →
            ∃ p, pre = p +:+ String c EmptyString) as Hend.
  { induction pre as [|d pre IH]; simpl; [done|].
    destruct pre as [|d' pre].
    - case_decide; [|done]. subst d. by exists EmptyString.
    - intros [p Hp]%IH. exists (String d p). simpl. by rewrite Hp. }
  assert (∀ q v, Str.has_char c (q +:+ String c v) = false → False) as Hcontra.
  { intros q v Hno. rewrite has_char_app in Hno. simpl in Hno.
    rewrite decide_True in Hno by done. by rewrite orb_true_r in Hno. }
  intros [Ht (pre & Hs & Hpre)] [Ht' (pre' & Hs' & Hpre')].
  destruct Hpre as [->|[p ->]%Hend], Hpre' as [->|[p' ->]%Hend];
    rewrite ?app_assoc_str in *; simpl in *.
  - congruence.
  - rewrite Hs in Hs'. rewrite Hs' in Ht. by destruct (Hcontra _ _ Ht).
  - rewrite Hs' in Hs. rewrite Hs in Ht'. by destruct (Hcontra _ _ Ht').
  - rewrite Hs in Hs'. by destruct (last_char_unique _ _ _ _ _ Hs' Ht Ht').
Qed.

Lemma split_no_char c s : Str.has_char c s = false → Str.split c s = [s].
Proof.
  induction s as [|d s IH]; simpl; [done|].
  case_decide; [done|]. by intros ->%IH.
Qed.

(** [s.split(c)[-1]] is the last piece of [s]. *)
Lemma last_split_final c s :
  final_segment c s (List.last (Str.split c s) EmptyString).
Proof.
  induction s as [|d s IH].
  - split; [done|]. exists EmptyString. by split; [|left].
  - pose proof (join_split c s) as Hjoin. simpl.
    destruct (split_is_cons c s) as [w [ws Hs]]. rewrite Hs in IH, Hjoin |- *.
    destruct IH as [Hno (pre & Heq & Hpre)]. case_decide as Hd.
    + subst d. split; [done|]. exists (String c pre). split; [by rewrite Heq|].
      right. destruct Hpre as [->|Hpre]; simpl; [by rewrite decide_True|].
      by destruct pre.
    + destruct ws as [|y ws].
      * simpl in *. subst w. split; [simpl; by rewrite decide_False|].
        exists EmptyString. by split; [|left].
      * change (List.last (String d w :: y :: ws) EmptyString)
          with (List.last (w :: y :: ws) EmptyString).
        split; [done|]. exists (String d pre). split; [by rewrite Heq|].
        right. destruct Hpre as [->|Hpre]; [|simpl; by destruct pre].
        change (s = List.last (w :: y :: ws) EmptyString) in Heq.
        rewrite <-Heq in Hno. by rewrite (split_no_char _ _ Hno) in Hs.
Qed.

(** ** Resource extractor *)

Lemma basename_final location : final_segment "/" location (Path.basename location).
Proof. apply after_last_final. Qed.

Lemma splitext_stem name :
  Str.has_char "/" name = false →
  without_extension name (fst (Path.splitext name)).
Proof.
  intros Hslash. unfold Path.splitext.
  rewrite (proj2 (rfind_None "/" name) Hslash).
  destruct (Str.rfind "." name) as [i|] eqn:Hdot.
  - destruct (rfind_Some _ _ _ Hdot) as [Heq Hno].
    rewrite Nat.sub_0_r. change (Str.drop 0 name) with name. simpl.
    destruct (Str.all_char "." (Str.take i name)) eqn:Hall; simpl.
    + right. split; [done|]. intros b e Hname He.
      rewrite <-Heq in Hname at 1.
      by destruct (last_char_unique _ _ _ _ _ Hname Hno He) as [<- _].
    + left. exists (Str.drop (S i) name).
      split_and!; [symmetry; exact Heq|done..].
  - right. split; [done|]. intros b e Hname _.
    apply rfind_None in Hdot. rewrite Hname, has_char_app in Hdot.
    simpl in Hdot. by rewrite orb_true_r in Hdot.
Qed.

Lemma without_extension_unique name base base' :
  without_extension name base → without_extension name base' → base = base'.
Proof.
  intros [(e & Hn & He & Hb)|[<- Hall]] [(e' & Hn' & He' & Hb')|[<- Hall']]; [| | |done].
  - rewrite Hn in Hn'. by destruct (last_char_unique _ _ _ _ _ Hn' He He').
  - rewrite (Hall' _ _ Hn He) in Hb. done.
  - rewrite (Hall _ _ Hn' He') in Hb'. done.
Qed.

Lemma final_segment_no_char c d s t :
  Str.has_char d s = false → final_segment c s t → Str.has_char d t = false.
Proof.
  intros Hs [_ (pre & -> & _)]. rewrite has_char_app in Hs.
  by apply orb_false_elim in Hs as [_ ?].
Qed.

Lemma content_type_map_lookup content_type e :
  CONTENT_TYPE_MAP !! content_type = Some e ↔
  (content_type, e) ∈ [("image/jpeg", "jpg"); ("image/png", "png"); ("image/gif", "gif")].
Proof.
  unfold CONTENT_TYPE_MAP. split.
  - apply elem_of_list_to_map_2.
  - apply elem_of_list_to_map_1. simpl.
    apply NoDup_ListNoDup.
    repeat (constructor; [simpl; intuition discriminate|]). constructor.
Qed.

Lemma extension_of_spec content_type :
  match CONTENT_TYPE_MAP !! content_type with
  | Some e => extension_of content_type = e
  | None =>
      ∃ subtype, final_segment "/" content_type subtype ∧
                 final_segment "+" subtype (extension_of content_type)
  end.
Proof.
  unfold extension_of. destruct (CONTENT_TYPE_MAP !! content_type); [done|].
  simpl. eexists. split; [apply last_split_final|]. apply last_split_final.
Qed.

Lemma extension_of_no_slash content_type :
  Str.has_char "/" (extension_of content_type) = false.
Proof.
  pose proof (extension_of_spec content_type) as Hext.
  destruct (CONTENT_TYPE_MAP !! content_type) as [e|] eqn:Hmap.
  - rewrite Hext. apply content_type_map_lookup in Hmap.
    repeat (apply elem_of_cons in Hmap as [[= _ ->]|Hmap]; [done|]).
    by apply elem_of_nil in Hmap.
  - destruct Hext as (subtype & [Hsub _] & Hfin).
    by eapply final_segment_no_char.
Qed.

Lemma startswith_char c s :
  Str.has_char c s = false → Str.startswith (String c EmptyString) s = false.
Proof. destruct s as [|d s]; simpl; [done|]. by case_decide. Qed.

Lemma join_inside resource_dir filename :
  Str.has_char "/" filename = false →
  Path.join resource_dir filename = resource_dir +:+ "/" +:+ filename ∨
  (Path.join resource_dir filename = resource_dir +:+ filename ∧
   (resource_dir = EmptyString ∨ Str.endswith_char "/" resource_dir = true)).
Proof.
  intros Hno. unfold Path.join. rewrite startswith_char by done.
  destruct (String.eqb_spec resource_dir EmptyString) as [->|_]; simpl.
  - right. by split; [|left].
  - destruct (Str.endswith_char "/" resource_dir); [right|left]; auto.
Qed.

(** ** Header parser *)

Lemma parse_header_line_colon headers key value :
  Str.has_char ":" key = false →
  parse_header_line headers (key +:+ String ":" value)
  = <[Str.lower (Str.strip key) := Str.strip value]> headers.
Proof.
  intros Hkey. unfold parse_header_line.
  rewrite has_char_app. simpl. rewrite orb_true_r.
  by rewrite (partition_at_first ":" key value Hkey).
Qed.

Lemma parse_header_line_plain headers line :
  Str.has_char ":" line = false → parse_header_line headers line = headers.
Proof. intros H. unfold parse_header_line. by rewrite H. Qed.

(** What a key is bound to after the loop has seen [lines]. *)
Lemma parse_lines_lookup lines k v :
  foldl parse_header_line ∅ lines !! k = Some v ↔
  ∃ before key value after,
    lines = (before ++ (key +:+ String ":" value) :: after)%list ∧
    Str.has_char ":" key = false ∧
    Str.lower (Str.strip key) = k ∧ Str.strip value = v ∧
    ∀ key' value', (key' +:+ String ":" value') ∈ after →
      Str.has_char ":" key' = false → Str.lower (Str.strip key') ≠ k.
Proof.
  induction lines as [|x l IH] using rev_ind.
  - simpl. rewrite lookup_empty. split; [done|].
    intros (before & ? & ? & ? & Heq & _). by destruct before.
  - rewrite foldl_snoc.
    destruct (Str.has_char ":" x) eqn:Hx.
    + destruct (has_char_split _ _ Hx) as (key0 & value0 & -> & Hkey0).
      rewrite parse_header_line_colon by done.
      destruct (decide (Str.lower (Str.strip key0) = k)) as [Hk|Hk].
      * rewrite Hk, lookup_insert_eq. split.
        -- intros [= <-]. exists l, key0, value0, []. split_and!; try done.
           intros ?? Hin. by apply elem_of_nil in Hin.
        -- intros (before & key & value & after & Heq & Hkey & _ & <- & Hlater).
           destruct after as [|y after] using rev_ind.
           ++ apply app_inj_tail in Heq as [_ Heq].
              by destruct (first_char_unique _ _ _ _ _ Heq Hkey0 Hkey) as [_ ->].
           ++ rewrite app_comm_cons, app_assoc in Heq.
              apply app_inj_tail in Heq as [_ <-].
              destruct (Hlater key0 value0); [|done..]. apply elem_of_app; right. by left.
      * rewrite lookup_insert_ne by done. rewrite IH. split.
        -- intros (before & key & value & after & -> & Hkey & <- & <- & Hlater).
           exists before, key, value, (after ++ [key0 +:+ String ":" value0])%list.
           split_and!; try done.
           ++ by rewrite <-app_assoc.
           ++ intros key' value' [Hin|Hin%list_elem_of_singleton]%elem_of_app Hkey'.
              ** by apply (Hlater key' value').
              ** by destruct (first_char_unique _ _ _ _ _ Hin Hkey' Hkey0) as [-> _].
        -- intros (before & key & value & after & Heq & Hkey & <- & <- & Hlater).
           destruct after as [|y after] using rev_ind.
           ++ apply app_inj_tail in Heq as [_ Heq].
              by destruct (first_char_unique _ _ _ _ _ Heq Hkey0 Hkey) as [<- _].
           ++ rewrite app_comm_cons, app_assoc in Heq.
              apply app_inj_tail in Heq as [-> <-].
              exists before, key, value, after. split_and!; try done.
              intros k' v' Hin. apply (Hlater k' v'), elem_of_app. by left.
    + rewrite parse_header_line_plain by done. rewrite IH. split.
      * intros (before & key & value & after & -> & Hkey & <- & <- & Hlater).
        exists before, key, value, (after ++ [x])%list. split_and!; try done.
        -- by rewrite <-app_assoc.
        -- intros key' value' [Hin|Hin%list_elem_of_singleton]%elem_of_app Hkey'.
           ++ by apply (Hlater key' value').
           ++ subst x. rewrite has_char_app in Hx. simpl in Hx.
              by rewrite orb_true_r in Hx.
      * intros (before & key & value & after & Heq & Hkey & <- & <- & Hlater).
        destruct after as [|y after] using rev_ind.
        -- apply app_inj_tail in Heq as [_ ->].
           rewrite has_char_app in Hx. simpl in Hx. by rewrite orb_true_r in Hx.
        -- rewrite app_comm_cons, app_assoc in Heq.
           apply app_inj_tail in Heq as [-> <-].
           exists before, key, value, after. split_and!; try done.
           intros k' v' Hin. apply (Hlater k' v'), elem_of_app. by left.
Qed.

(** C7.  [parse_headers] binds a key [k] to [v] exactly when some line
    [key:value] of the block, split at its first colon, has [k] as the
    lower-cased trimmed key and [v] as the trimmed value, and no later
    line has the same lower-cased trimmed key (the last occurrence wins,
    and keys that differ in case only collide).  The lines are those of
    the block (joining them with line feeds gives the block back); a line
    without a colon changes nothing; the empty block gives the empty
    mapping; and the mapping depends on the block alone, so that parsing
    it again gives an equal mapping. *)
Theorem parse_headers_mapping (headers_str : string) :
  (Str.join Re.LF (Str.split "010" headers_str) = headers_str ∧
   Forall (λ line, Str.has_char "010" line = false) (Str.split "010" headers_str)) ∧
  (∀ k v,
     parse_headers headers_str !! k = Some v ↔
     ∃ before key value after,
       Str.split "010" headers_str = (before ++ (key +:+ ":" +:+ value) :: after)%list ∧
       Str.has_char ":" key = false ∧
       Str.lower (Str.strip key) = k ∧ Str.strip value = v ∧
       ∀ key' value', (key' +:+ ":" +:+ value') ∈ after →
         Str.has_char ":" key' = false → Str.lower (Str.strip key') ≠ k) ∧
  (∀ line,
     Str.has_char ":" line = false → Str.has_char "010" line = false →
     parse_headers (headers_str +:+ Re.LF +:+ line) = parse_headers headers_str) ∧
  parse_headers EmptyString = ∅ ∧
  (∀ again, again = headers_str → parse_headers again = parse_headers headers_str).
Proof.
  split_and!.
  - apply join_split.
  - apply split_no_sep.
  - intros k v. apply parse_lines_lookup.
  - intros line Hcolon Hlf. unfold parse_headers.
    change (headers_str +:+ Re.LF +:+ line) with (headers_str +:+ String "010" line).
    rewrite split_app_line by done. rewrite foldl_snoc.
    by apply parse_header_line_plain.
  - done.
  - by intros ? ->.
Qed.

(** C10.  A header line is split at its first colon only: whatever follows
    that colon, further colons included, is the value, kept in full up to
    trimming.  This holds for the loop body on any mapping, and for the
    block when no later line has the same lower-cased trimmed key. *)
Theorem header_value_keeps_colons (headers_str key rest : string)
    (before after : list string) :
  Str.split "010" headers_str = (before ++ (key +:+ ":" +:+ rest) :: after)%list →
  Str.has_char ":" key = false →
  (∀ key' value', (key' +:+ ":" +:+ value') ∈ after →
     Str.has_char ":" key' = false →
     Str.lower (Str.strip key') ≠ Str.lower (Str.strip key)) →
  (∀ headers,
     parse_header_line headers (key +:+ ":" +:+ rest)
     = <[Str.lower (Str.strip key) := Str.strip rest]> headers) ∧
  parse_headers headers_str !! Str.lower (Str.strip key) = Some (Str.strip rest).
Proof.
  intros Hlines Hkey Hlater. split.
  - intros headers. by apply parse_header_line_colon.
  - apply parse_lines_lookup. by exists before, key, rest, after.
Qed.

Lemma header_value_keeps_colons_witness :
  parse_headers "Content-Type: image/png
Content-Location: http://host:8080/a:b.png" !! "content-location"
  = Some "http://host:8080/a:b.png".
Proof.
  apply (header_value_keeps_colons
           "Content-Type: image/png
Content-Location: http://host:8080/a:b.png"
           "Content-Location" " http://host:8080/a:b.png"
           ["Content-Type: image/png"] []).
  - reflexivity.
  - reflexivity.
  - intros key' value' Hin. inversion Hin.
Defined.

(** ** Resource extractor: the file of one call *)

(** C1.  Every file that a call of [save_resource] writes is
    [{base_name}.{extension}] inside [resource_dir]: the name has no slash
    and is joined to the directory; [base_name] is the last slash-separated
    segment of the location without its extension; [extension] is the
    entry of the fixed map (jpeg to jpg, png to png, gif to gif) for the
    content type or, when there is none, the last plus-separated piece of
    the last slash-separated piece of the content type, so that
    application/octet-stream gives octet-stream and image/svg+xml gives
    xml.  The bytes are the base64 decoding of the body exactly when the
    encoding is base64 and its UTF-8 encoding otherwise.  The call writes
    that file whenever the directory, the decoding and the write succeed. *)
Theorem save_resource_file :
  ((∀ content_type e,
      CONTENT_TYPE_MAP !! content_type = Some e ↔
      (content_type, e) ∈
        [("image/jpeg", "jpg"); ("image/png", "png"); ("image/gif", "gif")]) ∧
   extension_of "application/octet-stream" = "octet-stream" ∧
   extension_of "image/svg+xml" = "xml") ∧
  ∀ (L : Library) (content_location : option string)
    (content_type data encoding resource_dir : string),
    let run :=
      save_resource L content_location content_type data encoding resource_dir in
    (∀ path content,
       WriteFile path content ∈ run.1 →
       ∃ location segment base_name extension,
         content_location = Some location ∧
         final_segment "/" location segment ∧
         without_extension segment base_name ∧
         match CONTENT_TYPE_MAP !! content_type with
         | Some e => extension = e
         | None =>
             ∃ subtype, final_segment "/" content_type subtype ∧
                        final_segment "+" subtype extension
         end ∧
         Str.has_char "/" (base_name +:+ "." +:+ extension) = false ∧
         path = Path.join resource_dir (base_name +:+ "." +:+ extension) ∧
         (path = resource_dir +:+ "/" +:+ base_name +:+ "." +:+ extension ∨
          path = resource_dir +:+ base_name +:+ "." +:+ extension ∧
          (resource_dir = EmptyString ∨ Str.endswith_char "/" resource_dir = true)) ∧
         (encoding = "base64" → b64decode L data = Some content) ∧
         (encoding ≠ "base64" → content = Str.encode_utf8 data)) ∧
    (∀ location content,
       content_location = Some location →
       makedirs L resource_dir = true →
       (if String.eqb encoding "base64" then b64decode L data
        else Some (Str.encode_utf8 data)) = Some content →
       let path :=
         Path.join resource_dir
           (fst (Path.splitext (Path.basename location)) +:+ "." +:+
            extension_of content_type) in
       write_resource L path = true →
       run = ([MakeDirs resource_dir; WriteFile path content], Some (location, path))).
Proof.
  split; [split_and!; [apply content_type_map_lookup|done..]|].
  intros L content_location content_type data encoding resource_dir run. split.
  - intros path content. subst run. unfold save_resource, save_resource_try.
    destruct content_location as [location|]; [|by intros ?%elem_of_nil].
    destruct (makedirs L resource_dir); simpl; [|by intros ?%elem_of_nil].
    set (base_name := (Path.splitext (Path.basename location)).1).
    set (filename := base_name +:+ "." +:+ extension_of content_type).
    pose proof (basename_final location) as Hseg.
    pose proof (splitext_stem _ (proj1 Hseg)) as Hstem. fold base_name in Hstem.
    assert (Str.has_char "/" filename = false) as Hname.
    { unfold filename. rewrite !has_char_app, extension_of_no_slash. simpl.
      destruct Hstem as [(e & Hn & _)|[<- _]]; [|by rewrite (proj1 Hseg)].
      pose proof (proj1 Hseg) as Hn'. rewrite Hn, has_char_app in Hn'.
      apply orb_false_elim in Hn' as [-> _]. done. }
    destruct (String.eqb_spec encoding "base64") as [Henc|Henc].
    + destruct (b64decode L data) as [bytes|] eqn:Hdec; simpl.
      2:{ intros [[=]|?%elem_of_nil]%elem_of_cons; done. }
      destruct (write_resource L _); simpl.
      2:{ intros [[=]|?%elem_of_nil]%elem_of_cons; done. }
      intros [[=]|[[= -> ->]|?%elem_of_nil]%elem_of_cons]%elem_of_cons; [|done].
      exists location, (Path.basename location), base_name, (extension_of content_type).
      split_and!; try done.
      * apply extension_of_spec.
      * by apply join_inside.
    + destruct (write_resource L _); simpl.
      2:{ intros [[=]|?%elem_of_nil]%elem_of_cons; done. }
      intros [[=]|[[= -> ->]|?%elem_of_nil]%elem_of_cons]%elem_of_cons; [|done].
      exists location, (Path.basename location), base_name, (extension_of content_type).
      split_and!; try done.
      * apply extension_of_spec.
      * by apply join_inside.
  - intros location content -> Hdir Hdec path Hwrite. subst run path.
    unfold save_resource, save_resource_try. rewrite Hdir. simpl.
    rewrite Hdec. simpl in Hwrite |- *. by rewrite Hwrite.
Qed.

Lemma save_resource_file_witness :
  save_resource (sample_library []) (Some "http://host/pic/logo.v2.svg")
    "image/svg+xml" "<svg/>" "7bit" "out/images"
  = ([MakeDirs "out/images";
      WriteFile "out/images/logo.v2.xml" (Str.encode_utf8 "<svg/>")],
     Some ("http://host/pic/logo.v2.svg", "out/images/logo.v2.xml")).
Proof.
  apply (proj2 (proj2 save_resource_file (sample_library [])
                  (Some "http://host/pic/logo.v2.svg")
                  "image/svg+xml" "<svg/>" "7bit" "out/images")
           "http://host/pic/logo.v2.svg" (Str.encode_utf8 "<svg/>"));
    reflexivity.
Defined.

(** ** Walking the tree *)

Lemma node_ind' (P : node → Prop) :
  (∀ s, P (NavigableString s)) →
  (∀ name a contents, Forall P contents → P (Tag name a contents)) →
  ∀ n, P n.
Proof.
  intros Hstring Htag. fix IH 1. intros [s|name a contents]; [apply Hstring|].
  apply Htag. induction contents as [|c cs IHcs]; constructor; [apply IH|apply IHcs].
Qed.

Section visit_facts.
Context {St : Type} (f : St → string → attrs → result (St * attrs)).

Lemma visit_node_Tag st name a contents :
  visit_node f st (Tag name a contents)
  = '(st1, a') ← f st name a;
    '(st2, contents') ← visit f st1 contents;
    inr (st2, Tag name a' contents').
Proof. reflexivity. Qed.

Lemma run_app st t1 t2 :
  run f st (t1 ++ t2)
  = '(st1, r1) ← run f st t1;
    '(st2, r2) ← run f st1 t2;
    inr (st2, (r1 ++ r2)%list).
Proof.
  revert st. induction t1 as [|[name a] t1 IH]; intros st; simpl.
  - by destruct (run f st t2) as [e|[st2 r2]].
  - destruct (f st name a) as [e|[st1 a']]; simpl; [done|].
    rewrite IH. destruct (run f st1 t1) as [e|[st2 r1]]; simpl; [done|].
    by destruct (run f st2 t2) as [e|[st3 r2]].
Qed.

Lemma tags_cons n l : tags (n :: l) = (tags_node n ++ tags l)%list.
Proof. done. Qed.

Lemma visit_run_list l :
  Forall (λ n, ∀ st, walk_agrees f tags_node skeleton_node st n (visit_node f st n)) l →
  ∀ st, walk_agrees f tags skeleton st l (visit f st l).
Proof.
  induction 1 as [|n l Hn _ IH]; intros st; [done|].
  specialize (Hn st). unfold walk_agrees in *.
  rewrite tags_cons, run_app. cbn [visit].
  destruct (visit_node f st n) as [e|[st1 n']]; simpl; [by rewrite Hn|].
  destruct Hn as [-> Hsk]. simpl. specialize (IH st1).
  destruct (visit f st1 l) as [e|[st2 l']]; simpl.
  - by rewrite IH.
  - destruct IH as [-> Hsk']. simpl.
    split; [done|]. unfold skeleton in *. simpl. by rewrite Hsk, Hsk'.
Qed.

Lemma visit_run_node n st :
  walk_agrees f tags_node skeleton_node st n (visit_node f st n).
Proof.
  revert st. induction n as [s|name a contents IH] using node_ind'; intros st.
  - done.
  - pose proof (visit_run_list contents IH) as Hl.
    unfold walk_agrees in *. rewrite visit_node_Tag.
    change (tags_node (Tag name a contents)) with ((name, a) :: tags contents).
    cbn [run]. destruct (f st name a) as [e|[st1 a']]; simpl; [done|].
    specialize (Hl st1).
    destruct (visit f st1 contents) as [e|[st2 contents']]; simpl.
    + by rewrite Hl.
    + destruct Hl as [Hl Hsk].
      change (flat_map tags_node contents') with (tags contents').
      rewrite Hl. simpl. split; [done|]. unfold skeleton in Hsk. by rewrite Hsk.
Qed.

Lemma visit_run l st : walk_agrees f tags skeleton st l (visit f st l).
Proof.
  apply visit_run_list, Forall_forall. intros n _ st'. apply visit_run_node.
Qed.
End visit_facts.

(** A walk whose step leaves every tag and the state alone returns the
    tree it was given. *)
Lemma visit_unchanged {St : Type} (f : St → string → attrs → result (St * attrs))
    (st : St) (l : soup) :
  Forall (λ t, f st t.1 t.2 = inr (st, t.2)) (tags l) →
  visit f st l = inr (st, l).
Proof.
  assert (∀ n, Forall (λ t, f st t.1 t.2 = inr (st, t.2)) (tags_node n) →
               visit_node f st n = inr (st, n)) as Hnode.
  { induction n as [s|name a contents IH] using node_ind'; [done|].
    change (tags_node (Tag name a contents)) with ((name, a) :: tags contents).
    intros [Hhere Hbelow]%Forall_cons. rewrite visit_node_Tag. simpl in Hhere.
    rewrite Hhere. simpl.
    assert (visit f st contents = inr (st, contents)) as ->; [|done].
    clear Hhere. induction IH as [|c cs Hc _ IHcs]; [done|].
    rewrite tags_cons in Hbelow. apply Forall_app in Hbelow as [Hc' Hcs'].
    simpl. rewrite (Hc Hc'). simpl. by rewrite (IHcs Hcs'). }
  induction l as [|n l IH]; [done|].
  rewrite tags_cons. intros [Hn Hl]%Forall_app.
  simpl. rewrite (Hnode n Hn). simpl. by rewrite (IH Hl).
Qed.

(** ** Style pass *)

Lemma omap_nil_Forall {A B : Type} (g : A → option B) (l : list A) :
  omap g l = [] → Forall (λ x, g x = None) l.
Proof.
  induction l as [|x l IH]; simpl; [by constructor|].
  destruct (g x) eqn:Hx; [done|]. intros Hl. constructor; auto.
Qed.

Lemma style_step_plain st name a :
  parsed_attrs a → inline_style a = None → style_step st name a = inr (st, a).
Proof.
  intros [_ Hstr]. unfold inline_style, style_step.
  destruct (attr_get "style" a) as [[raw|l]|] eqn:Hstyle; [| |done].
  - by destruct (String.eqb (Str.strip raw) EmptyString).
  - destruct (Hstr "style" l); [|done]. by left.
Qed.

(** C8.  On a tree whose tags have no inline style, or only blank ones,
    the style pass changes nothing, whatever classes the tags carry: it
    returns the tree as it was and the empty style sheet, so that no class
    and no rule is created. *)
Theorem style_pass_stable (l : soup) :
  parsed l → inline_styles l = [] → process_styles l = inr (l, EmptyString).
Proof.
  intros Hparsed Hnone%omap_nil_Forall. unfold process_styles.
  rewrite (visit_unchanged style_step style_start l); [done|].
  unfold parsed in Hparsed. rewrite Forall_forall in Hparsed, Hnone |- *.
  intros [name a] Hin. apply style_step_plain; [apply (Hparsed _ Hin)|apply (Hnone _ Hin)].
Qed.

Lemma style_pass_stable_witness :
  process_styles
    [Tag "html" []
       [Tag "head" [] [Tag "style" [("type", AStr "text/css")]
                         [NavigableString ".i-style-1 { color:red }"]];
        Tag "body" [("class", AList ["page"])]
          [Tag "p" [("class", AList ["note"; "i-style-1"]); ("style", AStr " ")]
             [NavigableString "hello"]]]]
  = inr ([Tag "html" []
            [Tag "head" [] [Tag "style" [("type", AStr "text/css")]
                              [NavigableString ".i-style-1 { color:red }"]];
             Tag "body" [("class", AList ["page"])]
               [Tag "p" [("class", AList ["note"; "i-style-1"]); ("style", AStr " ")]
                  [NavigableString "hello"]]]],
         EmptyString).
Proof.
  apply style_pass_stable.
  - unfold parsed. simpl. repeat constructor; simpl; try done;
      intros key l; rewrite !elem_of_cons, elem_of_nil;
      intros [->|[->|[->|[]]]]; done.
  - reflexivity.
Defined.

Lemma class_name_inj i j : class_name i = class_name j → i = j.
Proof.
  unfold class_name. intros H. apply (inj (String.append "i-style-")) in H.
  by apply (inj pretty) in H.
Qed.

Lemma style_inv_start : style_inv [] style_start.
Proof.
  split_and!; try done; [constructor|].
  intros s c. simpl. rewrite lookup_empty. split; [done|]. by intros (i & ? & _).
Qed.

Lemma remember_style_inv seen st s :
  style_inv seen st → style_inv (see seen s) (remember_style st s).
Proof.
  intros (Hnodup & Hcount & Hrules & Hmap). unfold see, remember_style.
  destruct (style_map st !! s) as [c|] eqn:Hs.
  - apply Hmap in Hs as (i & Hi & _).
    rewrite decide_True by (by eapply list_elem_of_lookup_2). done.
  - assert (s ∉ seen) as Hfresh.
    { intros (i & Hi)%list_elem_of_lookup_1.
      assert (style_map st !! s = Some (class_name (S i))) as Hc
        by (apply Hmap; eauto). congruence. }
    rewrite decide_False by done. split_and!; simpl.
    + apply NoDup_app. split_and!; [done| |apply NoDup_singleton].
      intros x Hx ->%list_elem_of_singleton. done.
    + rewrite length_app. simpl. lia.
    + rewrite imap_app, Hrules, Hcount. simpl. by rewrite Nat.add_0_r.
    + intros s' c. destruct (decide (s = s')) as [<-|Hne].
      * rewrite lookup_insert_eq, Hcount. split.
        -- intros [= <-]. exists (length seen).
           by rewrite lookup_app_r, Nat.sub_diag by lia.
        -- intros (i & Hi & ->). apply lookup_app_Some in Hi as [Hi|[Hle Hi]].
           ++ destruct Hfresh. by eapply list_elem_of_lookup_2.
           ++ apply list_lookup_singleton_Some in Hi as [Hi _].
              do 3 f_equal. lia.
      * rewrite lookup_insert_ne by done. rewrite Hmap. split.
        -- intros (i & Hi & ->). exists i. split; [|done].
           by apply lookup_app_l_Some.
        -- intros (i & Hi & ->). exists i. split; [|done].
           apply lookup_app_Some in Hi as [Hi|[_ Hi]]; [done|].
           by apply list_lookup_singleton_Some in Hi as [_ ?].
Qed.

Lemma remember_style_keeps st s s' c :
  style_map st !! s' = Some c → style_map (remember_style st s) !! s' = Some c.
Proof.
  intros Hc. unfold remember_style.
  destruct (style_map st !! s) eqn:Hs; [done|]. simpl.
  rewrite lookup_insert_ne; [done|]. congruence.
Qed.

Lemma remember_style_lookup st s : is_Some (style_map (remember_style st s) !! s).
Proof.
  unfold remember_style. destruct (style_map st !! s) eqn:Hs; [by rewrite Hs|].
  simpl. by rewrite lookup_insert_eq.
Qed.

(** One step of the pass, by cases on what the tag carries. *)
Lemma style_step_styled st name a s c a' st' :
  inline_style a = Some s →
  style_step st name a = inr (st', a') →
  style_map (remember_style st s) !! s = Some c →
  st' = remember_style st s ∧ a' = restyled c a.
Proof.
  unfold inline_style, style_step, restyled, classes_of.
  destruct (attr_get "style" a) as [[raw|l]|]; [|done..].
  destruct (String.eqb (Str.strip raw) EmptyString); [done|].
  intros [= <-] Hstep Hc. rewrite Hc in Hstep.
  destruct (attr_get "class" a) as [[?|classes]|]; [done|..];
    by injection Hstep as <- <-.
Qed.

Lemma style_step_unstyled st name a a' st' :
  inline_style a = None →
  style_step st name a = inr (st', a') → st' = st ∧ a' = a.
Proof.
  unfold inline_style, style_step.
  destruct (attr_get "style" a) as [[raw|l]|]; [| done |by intros _ [= <- <-]].
  destruct (String.eqb (Str.strip raw) EmptyString); [|done].
  by intros _ [= <- <-].
Qed.

Lemma run_style_step ts :
  ∀ st seen st' ts',
    style_inv seen st →
    run style_step st ts = inr (st', ts') →
    style_inv (foldl see seen (omap (λ t, inline_style t.2) ts)) st' ∧
    (∀ s c, style_map st !! s = Some c → style_map st' !! s = Some c) ∧
    Forall2 (λ t t',
               t'.1 = t.1 ∧
               t'.2 = match inline_style t.2 with
                      | Some s => restyled (default EmptyString (style_map st' !! s)) t.2
                      | None => t.2
                      end) ts ts'.
Proof.
  induction ts as [|[name a] ts IH]; intros st seen st' ts' Hinv; simpl.
  - intros [= <- <-]. by split_and!.
  - destruct (style_step st name a) as [e|[st1 a']] eqn:Hstep; simpl; [done|].
    destruct (run style_step st1 ts) as [e|[st2 ts'']] eqn:Hrun; simpl; [done|].
    intros [= <- <-].
    destruct (inline_style a) as [s|] eqn:Hstyle.
    + destruct (remember_style_lookup st s) as [c Hc].
      destruct (style_step_styled _ _ _ _ _ _ _ Hstyle Hstep Hc) as [-> ->].
      destruct (IH _ (see seen s) _ _ (remember_style_inv _ _ s Hinv) Hrun)
        as (Hinv' & Hkeep & Hall).
      split_and!; [done| |].
      * intros s' c' Hs'. by apply Hkeep, remember_style_keeps.
      * constructor; [|done]. simpl. rewrite Hstyle.
        by rewrite (Hkeep _ _ Hc).
    + destruct (style_step_unstyled _ _ _ _ _ Hstyle Hstep) as [-> ->].
      destruct (IH _ seen _ _ Hinv Hrun) as (Hinv' & Hkeep & Hall).
      split_and!; [done..|]. constructor; [|done]. simpl. by rewrite Hstyle.
Qed.

Lemma run_style_step_total ts :
  Forall (λ t, parsed_attrs t.2) ts →
  ∀ st, ∃ r, run style_step st ts = inr r.
Proof.
  induction 1 as [|[name a] ts [Hclass Hstr] _ IH]; intros st; simpl; [by eauto|].
  assert (∃ r, style_step st name a = inr r) as [[st1 a'] ->].
  { unfold style_step. simpl in *.
    destruct (attr_get "style" a) as [[raw|l]|] eqn:Hstyle; [|by destruct (Hstr "style" l); [left|]|by eauto].
    destruct (String.eqb (Str.strip raw) EmptyString); [by eauto|].
    destruct (remember_style_lookup st (Str.strip raw)) as [c ->].
    destruct (attr_get "class" a) as [[?|classes]|] eqn:Hc; [|by eauto..].
    by destruct (Hclass s). }
  simpl. destruct (IH st1) as [[st2 ts'] ->]. simpl. by eauto.
Qed.

Lemma see_keeps l s seen : s ∈ seen → s ∈ foldl see seen l.
Proof.
  revert seen. induction l as [|x l IH]; intros seen Hin; simpl; [done|].
  apply IH. unfold see. case_decide; [done|]. apply elem_of_app. by left.
Qed.

Lemma first_seen_elem l s : s ∈ l → s ∈ first_seen l.
Proof.
  unfold first_seen. generalize (@nil string).
  induction l as [|x l IH]; intros seen; [by intros ?%elem_of_nil|].
  intros [->|Hin]%elem_of_cons; simpl; [|by apply IH].
  apply see_keeps. unfold see. case_decide; [done|].
  apply elem_of_app. right. by left.
Qed.

Lemma attr_get_set_eq key v a : attr_get key (attr_set key v a) = Some v.
Proof.
  induction a as [|[k w] a IH]; simpl; [by rewrite decide_True|].
  case_decide as Hk; simpl; [by rewrite decide_True|by rewrite decide_False].
Qed.

Lemma attr_get_set_ne key key' v a :
  key ≠ key' → attr_get key' (attr_set key v a) = attr_get key' a.
Proof.
  intros Hne. induction a as [|[k w] a IH]; simpl; [by rewrite decide_False|].
  case_decide as Hk; simpl.
  - subst k. by rewrite !decide_False.
  - by rewrite IH.
Qed.

Lemma attr_get_del_ne key key' a :
  key ≠ key' → attr_get key' (attr_del key a) = attr_get key' a.
Proof.
  intros Hne. induction a as [|[k w] a IH]; simpl; [done|].
  case_decide as Hk; simpl.
  - subst k. by rewrite decide_False.
  - by rewrite IH.
Qed.

Lemma classes_of_restyled c a : classes_of (restyled c a) = (classes_of a ++ [c])%list.
Proof.
  unfold restyled. unfold classes_of at 1.
  by rewrite attr_get_del_ne, attr_get_set_eq.
Qed.

(** C4, amended.  The style pass succeeds on a parsed tree, and in its
    result every tag with a non-blank inline style has lost the style and
    gained one class at the end of its class list; all else is unchanged.
    Two such tags gain the same class exactly when their inline styles
    are equal after trimming surrounding whitespace; in particular tags with
    byte-identical styles gain the same class.  The class of the style
    that is the N-th distinct one in document order is i-style-N, counted
    from 1, and the style sheet lists one rule per class in that order. *)
Theorem style_classes (l : soup) :
  (parsed l → ∃ l' css, process_styles l = inr (l', css)) ∧
  ∀ l' css, process_styles l = inr (l', css) →
    ∃ class_of : string → string,
      (∀ i s, first_seen (inline_styles l) !! i = Some s →
              class_of s = class_name (S i)) ∧
      skeleton l' = skeleton l ∧
      Forall2 (λ t t',
                 t'.1 = t.1 ∧
                 t'.2 = match inline_style t.2 with
                        | Some s => restyled (class_of s) t.2
                        | None => t.2
                        end) (tags l) (tags l') ∧
      (∀ i j t1 t2 t1' t2' s1 s2,
         tags l !! i = Some t1 → tags l !! j = Some t2 →
         tags l' !! i = Some t1' → tags l' !! j = Some t2' →
         inline_style t1.2 = Some s1 → inline_style t2.2 = Some s2 →
         (last (classes_of t1'.2) = last (classes_of t2'.2) ↔ s1 = s2) ∧
         last (classes_of t1'.2) = Some (class_of s1)) ∧
      css = Str.join Re.LF
              (imap (λ i s, css_rule (class_name (S i)) s)
                 (first_seen (inline_styles l))).
Proof.
  split.
  - intros Hparsed. unfold process_styles.
    destruct (run_style_step_total _ Hparsed style_start) as [[st ts] Hrun].
    pose proof (visit_run style_step l style_start) as Hwalk.
    unfold walk_agrees in Hwalk.
    destruct (visit style_step style_start l) as [e|[st' l']]; [congruence|].
    simpl. by eauto.
  - intros l' css. unfold process_styles.
    pose proof (visit_run style_step l style_start) as Hwalk.
    unfold walk_agrees in Hwalk.
    destruct (visit style_step style_start l) as [e|[st l'']]; simpl; [done|].
    intros [= -> <-]. destruct Hwalk as [Hrun Hsk].
    destruct (run_style_step _ _ _ _ _ style_inv_start Hrun)
      as ((Hnodup & _ & Hrules & Hmap) & _ & Hall).
    fold (inline_styles l) in Hnodup, Hrules, Hmap.
    fold (first_seen (inline_styles l)) in Hnodup, Hrules, Hmap.
    set (class_of := λ s, default EmptyString (style_map st !! s)).
    assert (∀ i s, first_seen (inline_styles l) !! i = Some s →
                   class_of s = class_name (S i)) as Hclass.
    { intros i s Hi. unfold class_of.
      assert (style_map st !! s = Some (class_name (S i))) as ->; [|done].
      apply Hmap. by exists i. }
    exists class_of. split_and!; [done..| |by rewrite Hrules].
    intros i j t1 t2 t1' t2' s1 s2 Hi Hj Hi' Hj' Hs1 Hs2.
    destruct (Forall2_lookup_lr _ _ _ _ _ _ Hall Hi Hi') as [_ H1].
    destruct (Forall2_lookup_lr _ _ _ _ _ _ Hall Hj Hj') as [_ H2].
    rewrite Hs1 in H1. rewrite Hs2 in H2. rewrite H1, H2.
    rewrite !classes_of_restyled, !last_snoc.
    split; [|done]. split; [|by intros ->]. intros [= Heq].
    assert (s1 ∈ inline_styles l) as (i1 & Hi1)%first_seen_elem%list_elem_of_lookup_1.
    { apply list_elem_of_omap. exists t1. split; [by eapply list_elem_of_lookup_2|done]. }
    assert (s2 ∈ inline_styles l) as (i2 & Hi2)%first_seen_elem%list_elem_of_lookup_1.
    { apply list_elem_of_omap. exists t2. split; [by eapply list_elem_of_lookup_2|done]. }
    change (class_of s1 = class_of s2) in Heq.
    rewrite (Hclass _ _ Hi1), (Hclass _ _ Hi2) in Heq.
    apply class_name_inj in Heq. injection Heq as ->. congruence.
Qed.

Lemma process_styles_sample :
  process_styles sample_styled
  = inr ([Tag "html" []
            [Tag "head" [] [];
             Tag "body" []
               [Tag "p" [("class", AList ["i-style-1"])] [NavigableString "a"];
                Tag "p" [("class", AList ["note"; "i-style-1"])] [NavigableString "b"];
                Tag "p" [("class", AList ["i-style-2"])] []]]],
         ".i-style-1 { color:red }
.i-style-2 { margin:0 }").
Proof. vm_compute. reflexivity. Qed.

(** The claim of C4 as it was stated fails: the first two paragraphs of
    [sample_styled] carry different style strings, [color:red] without and
    with a leading space, and both get the class i-style-1. *)
Lemma style_classes_counterexample :
  ∃ head a b c css,
    process_styles
      [Tag "html" []
         [Tag "head" [] [];
          Tag "body" []
            [Tag "p" [("style", AStr "color:red")] [NavigableString "a"];
             Tag "p" [("class", AList ["note"]); ("style", AStr " color:red")]
               [NavigableString "b"];
             Tag "p" [("style", AStr "margin:0")] []]]]
    = inr ([Tag "html" [] [head; Tag "body" [] [Tag "p" a [NavigableString "a"];
                                                 Tag "p" b [NavigableString "b"]; c]]],
           css) ∧
    AStr "color:red" ≠ AStr " color:red" ∧
    last (classes_of a) = Some "i-style-1" ∧
    last (classes_of b) = Some "i-style-1".
Proof.
  do 5 eexists. split; [exact process_styles_sample|]. by split_and!.
Qed.

Lemma style_classes_witness :
  (∃ l' css, process_styles sample_styled = inr (l', css)) ∧
  ∃ class_of : string → string,
    class_of "color:red" = "i-style-1" ∧ class_of "margin:0" = "i-style-2".
Proof.
  split.
  - apply (proj1 (style_classes sample_styled)).
    unfold parsed. simpl. repeat constructor; simpl; try done;
      intros key l; rewrite !elem_of_cons, elem_of_nil;
      intros [->|[->|[->|[]]]]; done.
  - destruct (proj2 (style_classes sample_styled) _ _ process_styles_sample)
      as (class_of & Hclass & _).
    exists class_of. split; [apply (Hclass 0)|apply (Hclass 1)]; reflexivity.
Defined.

(** ** Reference pass *)

Lemma run_stateless (f : unit → string → attrs → result (unit * attrs)) ts ts' st st' :
  run f st ts = inr (st', ts') →
  Forall2 (λ t t', t'.1 = t.1 ∧ f tt t.1 t.2 = inr (tt, t'.2)) ts ts'.
Proof.
  destruct st'. revert ts' st.
  induction ts as [|[name a] ts IH]; intros ts' []; simpl.
  - intros [= <-]. constructor.
  - destruct (f tt name a) as [e|[[] a']] eqn:Hstep; simpl; [done|].
    destruct (run f tt ts) as [e|[[] ts'']] eqn:Hrun; simpl; [done|].
    intros [= <-]. constructor; [done|]. by eapply IH.
Qed.

(** One step of the reference pass, by cases. *)
Lemma reference_step_cases L resource_map output_path name a a' :
  reference_step L resource_map output_path tt name a = inr (tt, a') →
  a' = a ∨
  (name ∈ ["img"; "link"; "script"] ∧
   ∃ value resource_path,
     reference_value name a = AStr value ∧
     resource_map !! value = Some resource_path ∧
     resource_path ≠ EmptyString ∧
     a' = attr_set (reference_attr name)
            (AStr (relpath L resource_path (Path.dirname output_path))) a).
Proof.
  unfold reference_step. case_bool_decide as Hname; [|intros [= <-]; by left].
  fold (reference_attr name). fold (reference_value name a).
  destruct (reference_value name a) as [value|?] eqn:Hvalue; [|done].
  destruct (resource_map !! value) as [resource_path|] eqn:Hpath;
    [|intros [= <-]; by left].
  destruct (String.eqb_spec resource_path EmptyString) as [->|Hne];
    intros [= <-]; [by left|].
  right. split; [done|]. by exists value, resource_path.
Qed.

(** The reference pass keeps names, nesting and text; a tag keeps all its
    attributes unless it is an img, link or script tag whose reference
    value (the empty string when the attribute is absent) is a key of the
    map with a non-empty path, and then only its reference attribute is
    set. *)
Lemma update_references_frame L l resource_map output_path l' :
  update_references L l resource_map output_path = inr l' →
  skeleton l' = skeleton l ∧
  Forall2 (λ t t',
             t'.1 = t.1 ∧
             (∀ key, key ≠ reference_attr t.1 → attr_get key t'.2 = attr_get key t.2) ∧
             (t'.2 ≠ t.2 →
              t.1 ∈ ["img"; "link"; "script"] ∧
              ∃ value resource_path,
                reference_value t.1 t.2 = AStr value ∧
                resource_map !! value = Some resource_path ∧
                t'.2 = attr_set (reference_attr t.1)
                         (AStr (relpath L resource_path (Path.dirname output_path)))
                         t.2)) (tags l) (tags l').
Proof.
  unfold update_references.
  pose proof (visit_run (reference_step L resource_map output_path) l tt) as Hwalk.
  unfold walk_agrees in Hwalk.
  destruct (visit _ tt l) as [e|[[] l'']]; simpl; [done|].
  intros [= <-]. destruct Hwalk as [Hrun Hsk]. split; [done|].
  apply run_stateless in Hrun. eapply Forall2_impl; [exact Hrun|].
  intros [name a] [name' a'] [Hname Hstep]. simpl in *. split; [done|].
  apply reference_step_cases in Hstep as [->|(Hin & value & path & Hv & Hp & _ & ->)].
  - by split.
  - split.
    + intros key Hkey. by apply attr_get_set_ne.
    + intros _. split; [done|]. by exists value, path.
Qed.

(** A reference to a location that is not a key of the map stays. *)
Lemma update_references_keeps L l resource_map output_path l' location :
  update_references L l resource_map output_path = inr l' →
  resource_map !! location = None →
  Forall2 (λ t t',
             t'.1 = t.1 ∧
             ∀ key, attr_get key t.2 = Some (AStr location) →
                    attr_get key t'.2 = Some (AStr location)) (tags l) (tags l').
Proof.
  intros [_ Hall]%update_references_frame Hnone.
  eapply Forall2_impl; [exact Hall|].
  intros [name a] [name' a'] (Hname & Hother & Hchanged). simpl in *.
  split; [done|]. intros key Hkey.
  destruct (decide (a' = a)) as [->|Hne]; [done|].
  destruct (Hchanged Hne) as (_ & value & path & Hv & Hp & _).
  destruct (decide (key = reference_attr name)) as [->|Hk].
  - unfold reference_value in Hv. rewrite Hkey in Hv. simpl in Hv.
    injection Hv as <-. congruence.
  - by rewrite Hother.
Qed.

(** Whether the pass raises depends on the tags alone, not on the map, the
    paths or the library. *)
Lemma update_references_raises L L' l m m' out out' :
  (∃ l1, update_references L l m out = inr l1) →
  ∃ l2, update_references L' l m' out' = inr l2.
Proof.
  assert (∀ ts, (∃ r, run (reference_step L m out) tt ts = inr r) →
                ∃ r, run (reference_step L' m' out') tt ts = inr r) as Hrun.
  { induction ts as [|[name a] ts IH]; simpl; [by eauto|].
    destruct (reference_step L m out tt name a) as [e|[[] a1]] eqn:Hstep; simpl;
      [by intros [? ?]|].
    destruct (run (reference_step L m out) tt ts) as [e|[[] ts1]]; simpl;
      [by intros [? ?]|].
    intros _.
    assert (∃ a2, reference_step L' m' out' tt name a = inr (tt, a2)) as [a2 ->].
    { revert Hstep. unfold reference_step. case_bool_decide; [|by eauto].
      destruct (default _ _); [|done]. intros _.
      destruct (m' !! s); [|by eauto]. destruct (String.eqb _ _); by eauto. }
    simpl. destruct IH as [[[] ts2] ->]; [by eauto|]. simpl. by eauto. }
  unfold update_references.
  pose proof (visit_run (reference_step L m out) l tt) as H1.
  pose proof (visit_run (reference_step L' m' out') l tt) as H2.
  unfold walk_agrees in *.
  destruct (visit (reference_step L m out) tt l) as [e|[[] l1]]; simpl;
    [by intros [? ?]|].
  intros _. destruct H1 as [H1 _].
  destruct (Hrun _ (ex_intro _ _ H1)) as [r Hr].
  destruct (visit (reference_step L' m' out') tt l) as [e|[[] l2]]; simpl; [congruence|].
  by eauto.
Qed.

(** ** Style sheet injection *)

Lemma on_first_node_Tag name g nm a contents :
  on_first_node name g (Tag nm a contents)
  = if decide (nm = name) then Some (Tag nm a (g contents))
    else Tag nm a <$> on_first name g contents.
Proof. reflexivity. Qed.

(** [on_first] finds the first tag of that name in document order and
    changes its contents only. *)
Lemma on_first_list_spec name g l :
  Forall (λ n, match on_first_node name g n with
               | None => name ∉ (tags_node n).*1
               | Some n' =>
                   ∃ pre a contents post,
                     tags_node n = (pre ++ (name, a) :: tags contents ++ post)%list ∧
                     tags_node n' = (pre ++ (name, a) :: tags (g contents) ++ post)%list ∧
                     name ∉ pre.*1
               end) l →
  match on_first name g l with
  | None => name ∉ (tags l).*1
  | Some l' =>
      ∃ pre a contents post,
        tags l = (pre ++ (name, a) :: tags contents ++ post)%list ∧
        tags l' = (pre ++ (name, a) :: tags (g contents) ++ post)%list ∧
        name ∉ pre.*1
  end.
Proof.
  induction 1 as [|n l Hn _ IH]; simpl; [by intros ?%elem_of_nil|].
  destruct (on_first_node name g n) as [n'|].
  - destruct Hn as (pre & a & contents & post & Hn & Hn' & Hpre).
    exists pre, a, contents, (post ++ tags l)%list.
    rewrite ?tags_cons, Hn, Hn'.
    split_and!; [| |done]; by rewrite <-!app_assoc, <-app_comm_cons, <-!app_assoc.
  - destruct (on_first name g l) as [l'|]; simpl.
    + destruct IH as (pre & a & contents & post & Hl & Hl' & Hpre).
      exists (tags_node n ++ pre)%list, a, contents, post.
      rewrite ?tags_cons, ?Hl, ?Hl'. rewrite <-!app_assoc. split_and!; [done..|].
      rewrite fmap_app. intros [?|?]%elem_of_app; done.
    + rewrite ?tags_cons, fmap_app. intros [?|?]%elem_of_app; done.
Qed.

Lemma on_first_node_spec name g n :
  match on_first_node name g n with
  | None => name ∉ (tags_node n).*1
  | Some n' =>
      ∃ pre a contents post,
        tags_node n = (pre ++ (name, a) :: tags contents ++ post)%list ∧
        tags_node n' = (pre ++ (name, a) :: tags (g contents) ++ post)%list ∧
        name ∉ pre.*1
  end.
Proof.
  induction n as [s|nm a contents IH] using node_ind'; [by intros ?%elem_of_nil|].
  rewrite on_first_node_Tag. case_decide as Hnm.
  - subst nm. exists [], a, contents, []. simpl. rewrite !app_nil_r.
    split_and!; [done..|]. by intros ?%elem_of_nil.
  - pose proof (on_first_list_spec name g contents IH) as Hl.
    destruct (on_first name g contents) as [contents'|]; simpl.
    + destruct Hl as (pre & a' & inner & post & Hl & Hl' & Hpre).
      exists ((nm, a) :: pre), a', inner, post.
      change (flat_map tags_node contents) with (tags contents).
      change (flat_map tags_node contents') with (tags contents').
      rewrite Hl, Hl'. split_and!; [done..|].
      simpl. intros [?|?]%elem_of_cons; done.
    + change (flat_map tags_node contents) with (tags contents).
      intros [?|?]%elem_of_cons; done.
Qed.

Lemma on_first_spec name g l :
  match on_first name g l with
  | None => name ∉ (tags l).*1
  | Some l' =>
      ∃ pre a contents post,
        tags l = (pre ++ (name, a) :: tags contents ++ post)%list ∧
        tags l' = (pre ++ (name, a) :: tags (g contents) ++ post)%list ∧
        name ∉ pre.*1
  end.
Proof.
  apply on_first_list_spec, Forall_forall. intros n _. apply on_first_node_spec.
Qed.

Lemma on_first_found name g l :
  name ∈ (tags l).*1 → ∃ l', on_first name g l = Some l'.
Proof.
  intros Hin. pose proof (on_first_spec name g l) as Hspec.
  destruct (on_first name g l); [by eauto|done].
Qed.

Lemma tags_app (l1 l2 : soup) : tags (l1 ++ l2)%list = (tags l1 ++ tags l2)%list.
Proof. unfold tags. by rewrite flat_map_app. Qed.

(** With a head in the tree, the style element becomes the last child of
    the first head. *)
Lemma stylesheet_into_head (L : Library) (css_content : string) (l : soup) :
  css_content ≠ EmptyString → "head" ∈ (tags l).*1 →
  ∃ l' pre a inner post,
    inject_stylesheet L css_content l = inr l' ∧
    on_first "head" (λ contents, (contents ++ [style_tag css_content])%list) l = Some l' ∧
    tags l = (pre ++ ("head", a) :: inner ++ post)%list ∧
    tags l' = (pre ++ ("head", a) :: inner
                   ++ ("style", [("type", AStr "text/css")]) :: post)%list ∧
    "head" ∉ pre.*1.
Proof.
  intros Hcss Hhead. unfold inject_stylesheet.
  destruct (String.eqb_spec css_content EmptyString) as [|_]; [done|].
  pose proof (on_first_spec "head"
                (λ contents, (contents ++ [style_tag css_content])%list) l) as Hspec.
  destruct (on_first "head" _ l) as [l'|]; [|done].
  destruct Hspec as (pre & a & contents & post & Hl & Hl' & Hpre).
  exists l', pre, a, (tags contents), post. split_and!; try done.
  rewrite Hl', tags_app. simpl. by rewrite <-app_assoc.
Qed.

(** C9.  Without a head in the tree the style sheet does not reach the
    document.  The code appends the style element to what [Tag.insert]
    returned, which is never the new head: with a [bs4] whose [insert]
    returns nothing, or with no html element, the step raises and the
    conversion fails; with a [bs4] whose [insert] returns a list, an
    empty head becomes the first child of the html element and the style
    element is dropped. *)
Theorem stylesheet_without_head (L : Library) (css_content : string) (l : soup) :
  css_content ≠ EmptyString → "head" ∉ (tags l).*1 →
  (inject_stylesheet L css_content l = inl AttributeError ∧
   (tag_insert L = InsertReturnsNone ∨ "html" ∉ (tags l).*1)) ∨
  (∃ l' pre a post,
     tag_insert L = InsertReturnsList ∧
     inject_stylesheet L css_content l = inr l' ∧
     tags l = (pre ++ ("html", a) :: post)%list ∧
     tags l' = (pre ++ ("html", a) :: ("head", []) :: post)%list).
Proof.
  intros Hcss Hhead. unfold inject_stylesheet.
  destruct (String.eqb_spec css_content EmptyString) as [|_]; [done|].
  pose proof (on_first_spec "head"
                (λ contents, (contents ++ [style_tag css_content])%list) l) as Hspec.
  destruct (on_first "head" _ l) as [l'|].
  { destruct Hspec as (pre & a & contents & post & Hl & _). destruct Hhead.
    rewrite Hl, fmap_app. apply elem_of_app. right. by left. }
  clear Hspec.
  pose proof (on_first_spec "html" (λ contents, Tag "head" [] [] :: contents) l) as Hspec.
  destruct (on_first "html" _ l) as [l'|]; [|left; by auto].
  destruct (tag_insert L) eqn:Hinsert; [left; by auto|right].
  destruct Hspec as (pre & a & contents & post & Hl & Hl' & _).
  exists l', pre, a, (tags contents ++ post)%list. by split_and!.
Qed.

Lemma stylesheet_without_head_witness :
  (inject_stylesheet (sample_library []) ".i-style-1 { color:red }"
     [Tag "html" [] [Tag "body" [] [Tag "p" [("class", AList ["i-style-1"])] []]]]
   = inl AttributeError ∧
   (tag_insert (sample_library []) = InsertReturnsNone ∨
    "html" ∉ (tags [Tag "html" [] [Tag "body" []
                      [Tag "p" [("class", AList ["i-style-1"])] []]]]).*1)) ∨
  (∃ l' pre a post,
     tag_insert (sample_library []) = InsertReturnsList ∧
     inject_stylesheet (sample_library []) ".i-style-1 { color:red }"
       [Tag "html" [] [Tag "body" [] [Tag "p" [("class", AList ["i-style-1"])] []]]]
     = inr l' ∧
     tags [Tag "html" [] [Tag "body" [] [Tag "p" [("class", AList ["i-style-1"])] []]]]
     = (pre ++ ("html", a) :: post)%list ∧
     tags l' = (pre ++ ("html", a) :: ("head", []) :: post)%list).
Proof.
  apply stylesheet_without_head.
  - discriminate.
  - simpl. rewrite !elem_of_cons, elem_of_nil. intros [|[|[|[]]]]; discriminate.
Defined.

(** With a [bs4] whose [insert] returns nothing, the conversion of
    [headless_archive] fails and writes no page. *)
Lemma process_headless :
  process (sample_library headless_page) (Some headless_archive) "out/page.html" "images"
  = (false, []).
Proof. vm_compute. reflexivity. Qed.

(** ** The regular expressions *)

Lemma startswith_app p t : Str.startswith p (p +:+ t) = true.
Proof. induction p as [|c p IH]; simpl; [done|]. by rewrite decide_True. Qed.

Lemma startswith_inv p s :
  Str.startswith p s = true → s = p +:+ Str.drop (String.length p) s.
Proof.
  revert s. induction p as [|c p IH]; intros [|d s]; simpl; try done.
  case_decide; [|done]. subst d. intros Hp. by rewrite <-(IH s Hp).
Qed.

Lemma drop_app p t : Str.drop (String.length p) (p +:+ t) = t.
Proof. induction p as [|c p IH]; simpl; [done|]. done. Qed.

Lemma strip_prefix_Some p s t : Re.strip_prefix p s = Some t ↔ s = p +:+ t.
Proof.
  unfold Re.strip_prefix. split.
  - destruct (Str.startswith p s) eqn:Hp; [|done]. intros [= <-].
    by apply startswith_inv.
  - intros ->. by rewrite startswith_app, drop_app.
Qed.

Lemma span_not_spec c s :
  s = (Re.span_not c s).1 +:+ (Re.span_not c s).2 ∧
  Str.has_char c (Re.span_not c s).1 = false.
Proof.
  induction s as [|d s [IH1 IH2]]; simpl; [done|]. case_decide as Hd; [done|].
  destruct (Re.span_not c s) as [run rest]. simpl in *.
  split; [by rewrite <-IH1|]. by rewrite decide_False.
Qed.

Lemma span_not_app c b post :
  Str.has_char c b = false →
  Re.span_not c (b +:+ String c post) = (b, String c post).
Proof.
  induction b as [|d b IH]; simpl; [by rewrite decide_True|].
  case_decide; [done|]. intros Hb. by rewrite (IH Hb).
Qed.

(** A boundary declaration at the front of [s]. *)
Lemma boundary_here_Some s b :
  Re.boundary_here s = Some b ↔
  (∃ post, s = "boundary=" +:+ Re.DQUOTE +:+ b +:+ Re.DQUOTE +:+ post) ∧
  Str.has_char "034" b = false ∧ b ≠ EmptyString.
Proof.
  unfold Re.boundary_here. split.
  - destruct (Re.strip_prefix _ s) as [rest|] eqn:Hrest; [|done].
    apply strip_prefix_Some in Hrest. cbn [mbind option_bind].
    destruct (span_not_spec "034" rest) as [Hsplit Hrun].
    destruct (Re.span_not "034" rest) as [token rest']. cbn [fst snd] in *.
    destruct (String.eqb_spec token EmptyString) as [|Hne]; [done|].
    destruct rest' as [|q rest']; [done|]. cbn [negb andb Str.startswith Re.DQUOTE].
    case_decide as Hq; [|done]. subst q. intros [= <-]. split_and!; [|done..].
    exists rest'. rewrite Hrest, Hsplit. by rewrite app_assoc_str.
  - intros ([post ->] & Hb & Hne).
    assert (Re.strip_prefix ("boundary=" +:+ Re.DQUOTE)
              ("boundary=" +:+ Re.DQUOTE +:+ b +:+ Re.DQUOTE +:+ post)
            = Some (b +:+ String "034" post)) as ->
      by (by apply strip_prefix_Some).
    cbn [mbind option_bind]. rewrite (span_not_app _ _ _ Hb).
    destruct (String.eqb_spec b EmptyString) as [|_]; [done|].
    cbn [negb andb Str.startswith Re.DQUOTE]. by rewrite decide_True.
Qed.

(** No boundary declaration anywhere in [s]. *)
Lemma search_boundary_None s :
  Re.search_boundary s = None ↔
  ∀ pre b post,
    s = pre +:+ "boundary=" +:+ Re.DQUOTE +:+ b +:+ Re.DQUOTE +:+ post →
    Str.has_char "034" b = false → b = EmptyString.
Proof.
  split.
  - induction s as [|c s IH]; intros Hnone pre b post Hs Hb.
    + by destruct pre.
    + cbn [Re.search_boundary] in Hnone.
      destruct (Re.boundary_here (String c s)) as [?|] eqn:Hhere; [done|].
      destruct pre as [|d pre].
      * destruct (decide (b = EmptyString)) as [|Hne]; [done|].
        assert (Re.boundary_here (String c s) = Some b) as Hb'; [|congruence].
        apply boundary_here_Some. split_and!; [|done..]. by exists post.
      * change (String c s = String d (pre +:+ "boundary=" +:+ Re.DQUOTE +:+ b
                                           +:+ Re.DQUOTE +:+ post)) in Hs.
        injection Hs as _ Hs'. by apply (IH Hnone pre b post).
  - induction s as [|c s IH]; intros Hall.
    + done.
    + cbn [Re.search_boundary].
      destruct (Re.boundary_here (String c s)) as [b|] eqn:Hhere.
      * apply boundary_here_Some in Hhere as ([post Hs] & Hb & Hne).
        destruct Hne. by apply (Hall EmptyString b post).
      * apply IH. intros pre b post -> Hb.
        by apply (Hall (String c pre) b post).
Qed.

(** No blank line anywhere in [s]. *)
Lemma search_html_None s :
  Re.search_html s = None ↔
  Str.contains (Re.LF +:+ Re.LF) s = false ∧
  Str.contains (Re.CR +:+ Re.LF +:+ Re.CR +:+ Re.LF) s = false.
Proof.
  induction s as [|c s IH].
  - done.
  - cbn [Re.search_html Str.contains].
    destruct (Str.startswith (Re.LF +:+ Re.LF) (String c s));
      [split; [done|by intros [? ?]]|].
    destruct (Str.startswith (Re.CR +:+ Re.LF +:+ Re.CR +:+ Re.LF) (String c s));
      [split; [done|by intros [? ?]]|done].
Qed.

(** ** Orchestrator *)

Lemma find_None_Forall {A : Type} (p : A → bool) (l : list A) :
  List.find p l = None ↔ Forall (λ x, p x = false) l.
Proof.
  induction l as [|x l IH]; simpl; [by split; [constructor|]|].
  destruct (p x) eqn:Hx.
  - split; [done|]. intros [? _]%Forall_cons. congruence.
  - rewrite IH. split; [by constructor|]. by intros [_ ?]%Forall_cons.
Qed.

(** C2.  A document without a boundary declaration (the word boundary, an
    equals sign and a non-empty quoted token), or none of whose parts
    contains a text/html content type, or whose HTML part has no blank
    line after which its body starts, makes [process] fail: the body of
    its [try] raises the error that names the defect before anything is
    written, and [process] returns [False] with no file and no directory
    created. *)
Theorem format_errors_write_nothing (L : Library)
    (content output_path resource_dir : string) :
  (locate_html L content = inl MissingBoundary ↔
   ∀ pre b post,
     content = pre +:+ "boundary=" +:+ Re.DQUOTE +:+ b +:+ Re.DQUOTE +:+ post →
     Str.has_char "034" b = false → b = EmptyString) ∧
  (locate_html L content = inl MissingHtml ↔
   ∃ boundary parts,
     Re.search_boundary content = Some boundary ∧
     split_parts L boundary content = Some parts ∧
     Forall (λ part, Str.contains "Content-Type: text/html" part = false) parts) ∧
  (locate_html L content = inl HtmlNotLocated ↔
   ∃ boundary parts html_part,
     Re.search_boundary content = Some boundary ∧
     split_parts L boundary content = Some parts ∧
     List.find (Str.contains "Content-Type: text/html") parts = Some html_part ∧
     Str.contains (Re.LF +:+ Re.LF) html_part = false ∧
     Str.contains (Re.CR +:+ Re.LF +:+ Re.CR +:+ Re.LF) html_part = false) ∧
  (∀ e, locate_html L content = inl e →
        process_try L (Some content) output_path resource_dir = ([], inl e) ∧
        process L (Some content) output_path resource_dir = (false, [])).
Proof.
  split_and!.
  - rewrite <-search_boundary_None. unfold locate_html.
    destruct (Re.search_boundary content) as [boundary|]; [|done].
    destruct (split_parts L boundary content) as [parts|]; [|done].
    destruct (List.find _ parts) as [html_part|]; [|done].
    by destruct (Re.search_html html_part).
  - unfold locate_html.
    destruct (Re.search_boundary content) as [boundary|];
      [|split; [done|by intros (? & ? & ? & _)]].
    destruct (split_parts L boundary content) as [parts|] eqn:Hsplit;
      [|split; [done|intros (? & ? & [= <-] & ? & _); congruence]].
    destruct (List.find _ parts) as [html_part|] eqn:Hfind.
    + split; [by destruct (Re.search_html html_part)|].
      intros (? & parts' & [= <-] & Hs & Hall%find_None_Forall). congruence.
    + split; [|done]. intros _. exists boundary, parts.
      by apply find_None_Forall in Hfind.
  - unfold locate_html.
    destruct (Re.search_boundary content) as [boundary|];
      [|split; [done|by intros (? & ? & ? & ? & _)]].
    destruct (split_parts L boundary content) as [parts|] eqn:Hsplit;
      [|split; [done|intros (? & ? & ? & [= <-] & ? & _); congruence]].
    destruct (List.find _ parts) as [html_part|] eqn:Hfind;
      [|split; [done|intros (? & ? & ? & [= <-] & ? & ? & _); congruence]].
    destruct (Re.search_html html_part) as [body|] eqn:Hbody.
    + split; [done|].
      intros (? & ? & part & [= <-] & Hs & Hf & Hlf & Hcr).
      assert (part = html_part) as -> by congruence.
      assert (Re.search_html html_part = None) by (by apply search_html_None).
      congruence.
    + split; [|done]. intros _. exists boundary, parts, html_part.
      apply search_html_None in Hbody as [? ?]. by split_and!.
  - intros e He. unfold process, process_try. rewrite He. done.
Qed.

(** A text without a boundary declaration is refused by every library. *)
Lemma process_without_boundary (L : Library) :
  process L (Some "MIME-Version: 1.0
Content-Type: text/html

<html></html>
") "out/page.html" "images" = (false, []).
Proof. reflexivity. Qed.

(** ** The body of the HTML part *)

Lemma search_html_after_blank_line s :
  Re.search_html s = Re.lazy_body <$> after_blank_line s.
Proof.
  induction s as [|c s IH]; [done|].
  cbn [Re.search_html after_blank_line].
  destruct (Str.startswith (Re.LF +:+ Re.LF) (String c s)); [done|].
  by destruct (Str.startswith (Re.CR +:+ Re.LF +:+ Re.CR +:+ Re.LF) (String c s)).
Qed.

Lemma rstrip_app_space s c :
  Str.isspace c = true → Str.rstrip (s +:+ String c EmptyString) = Str.rstrip s.
Proof.
  intros Hc. induction s as [|d s IH]; simpl; [by rewrite Hc|]. by rewrite IH.
Qed.

(** Without a line feed followed by two dashes, the lazy group takes all
    of the text, but for a last line feed. *)
Lemma lazy_body_no_dashes s :
  Str.contains (Re.LF +:+ "--") s = false →
  Re.lazy_body s = s ∨ s = Re.lazy_body s +:+ Re.LF.
Proof.
  induction s as [|c s IH]; [by left|].
  cbn [Re.lazy_body Str.contains].
  destruct (Str.startswith (Re.LF +:+ "--") (String c s)); [done|].
  intros Hs. destruct (String.eqb_spec (String c s) Re.LF) as [->|_]; [by right|].
  destruct (IH Hs) as [->|Heq]; [by left|]. right.
  change (String c s = String c (Re.lazy_body s +:+ Re.LF)). by rewrite <-Heq.
Qed.

(** On an HTML part whose body has no line that starts with two dashes the
    code extracts the body as specified. *)
Lemma html_body_without_dashes html_part :
  (∀ body, after_blank_line html_part = Some body →
           Str.contains (Re.LF +:+ "--") body = false) →
  Str.strip <$> Re.search_html html_part = html_body_as_specified html_part.
Proof.
  intros Hno. unfold html_body_as_specified. rewrite search_html_after_blank_line.
  destruct (after_blank_line html_part) as [body|]; [|done]. simpl. f_equal.
  destruct (lazy_body_no_dashes body (Hno body eq_refl)) as [->|Heq]; [done|].
  rewrite Heq at 2. unfold Str.strip, Re.LF. by rewrite rstrip_app_space.
Qed.

(** C3.  The archive [dashed_archive] declares the boundary X and has one
    text/html part.  The body of that part, as specified, runs to the end
    of the part; the code cuts it at the first line that starts with two
    dashes, here the line that closes the comment. *)
Theorem html_body_cut_at_dashes (L : Library) :
  ∃ parts html_part,
    Re.search_boundary dashed_archive = Some "X" ∧
    split_parts L "X" dashed_archive = Some parts ∧
    List.filter (Str.contains "Content-Type: text/html") parts = [html_part] ∧
    html_body_as_specified html_part
    = Some "<html>
<!-- saved page
-->
<body>hi</body>
</html>" ∧
    locate_html L dashed_archive = inr (parts, "<html>
<!-- saved page").
Proof.
  do 2 eexists. split_and!; [reflexivity..|].
  unfold locate_html. by vm_compute.
Qed.

(** ** Failing resources *)

Lemma save_resource_None L content_location content_type data encoding resource_dir :
  (save_resource L content_location content_type data encoding resource_dir).2 = None ↔
  content_location = None ∨
  makedirs L resource_dir = false ∨
  (encoding = "base64" ∧ b64decode L data = None) ∨
  ∃ location, content_location = Some location ∧
    write_resource L (resource_path resource_dir location content_type) = false.
Proof.
  unfold save_resource, save_resource_try, resource_path.
  destruct content_location as [location|]; [|by split; [left|]].
  destruct (makedirs L resource_dir); simpl; [|by split; [right; left|]].
  destruct (String.eqb_spec encoding "base64") as [Henc|Henc].
  - destruct (b64decode L data) as [content|]; simpl; [|by split; [right; right; left|]].
    destruct (write_resource L _) eqn:Hw; simpl.
    + split; [done|]. intros [?|[?|[[_ ?]|(? & [= <-] & ?)]]]; congruence.
    + split; [|done]. intros _. do 3 right. by exists location.
  - destruct (write_resource L _) eqn:Hw; simpl.
    + split; [done|]. intros [?|[?|[[? _]|(? & [= <-] & ?)]]]; congruence.
    + split; [|done]. intros _. do 3 right. by exists location.
Qed.

Lemma save_resource_None_no_file L content_location content_type data encoding
    resource_dir path content :
  (save_resource L content_location content_type data encoding resource_dir).2 = None →
  WriteFile path content ∉
    (save_resource L content_location content_type data encoding resource_dir).1.
Proof.
  unfold save_resource, save_resource_try.
  destruct content_location as [location|]; [|by intros _ ?%elem_of_nil].
  destruct (makedirs L resource_dir); simpl; [|by intros _ ?%elem_of_nil].
  destruct (if String.eqb encoding "base64" then _ else _) as [bytes|]; simpl.
  - destruct (write_resource L _); simpl; [done|].
    intros _ [[=]|?%elem_of_nil]%elem_of_cons; done.
  - intros _ [[=]|?%elem_of_nil]%elem_of_cons; done.
Qed.

Lemma save_resource_Some L content_location content_type data encoding resource_dir k v :
  (save_resource L content_location content_type data encoding resource_dir).2 = Some (k, v) →
  content_location = Some k.
Proof.
  unfold save_resource, save_resource_try.
  destruct content_location as [location|]; [|done].
  destruct (makedirs L resource_dir); simpl; [|done].
  destruct (if String.eqb encoding "base64" then _ else _) as [bytes|]; simpl; [|done].
  destruct (write_resource L _); simpl; [|done]. by intros [= <- _].
Qed.

Lemma collect_lookup results k v :
  collect results !! k = Some v → Some (k, v) ∈ results.
Proof.
  unfold collect. induction results as [|r results IH] using rev_ind; [done|].
  rewrite foldl_snoc. destruct r as [[k' v']|].
  - destruct (decide (k' = k)) as [->|Hne].
    + rewrite lookup_insert_eq. intros [= ->]. apply elem_of_app. right. by left.
    + rewrite lookup_insert_ne by done. intros ?%IH. apply elem_of_app. by left.
  - intros ?%IH. apply elem_of_app. by left.
Qed.

(** A location all of whose calls fail is not a key of the map. *)
Lemma extract_resources_excludes L parts resource_dir location :
  (∀ results, as_completed L results ≡ₚ results) →
  (∀ j, j ∈ omap resource_job parts → job_location j = Some location →
        (run_job L resource_dir j).2 = None) →
  (extract_resources L parts resource_dir).2 !! location = None.
Proof.
  intros Hperm Hfail. unfold extract_resources. simpl.
  destruct (collect _ !! location) as [v|] eqn:Hv; [|done].
  apply collect_lookup in Hv. rewrite Hperm in Hv.
  apply list_elem_of_fmap in Hv as ([events r] & Hr & Hin). simpl in Hr. subst r.
  apply list_elem_of_fmap in Hin as (j & Hj & Hin).
  assert ((run_job L resource_dir j).2 = Some (location, v)) as Hrun
    by (by rewrite <-Hj).
  pose proof Hrun as Hloc. unfold run_job in Hloc. apply save_resource_Some in Hloc.
  rewrite (Hfail j Hin Hloc) in Hrun. done.
Qed.

Lemma on_first_names name g g' (l l' : soup) :
  (tags l).*1 = (tags l').*1 →
  (∃ r, on_first name g l = Some r) → ∃ r', on_first name g' l' = Some r'.
Proof.
  intros Hnames [r Hr]. apply on_first_found. rewrite <-Hnames.
  pose proof (on_first_spec name g l) as Hspec. rewrite Hr in Hspec.
  destruct Hspec as (pre & a & contents & post & -> & _).
  rewrite fmap_app. apply elem_of_app. right. by left.
Qed.

(** Whether the injection raises depends on the names of the tags and on
    the installed [bs4] alone. *)
Lemma inject_stylesheet_raises L L' css_content (l l' : soup) :
  tag_insert L = tag_insert L' →
  (tags l).*1 = (tags l').*1 →
  (∃ r, inject_stylesheet L css_content l = inr r) →
  ∃ r', inject_stylesheet L' css_content l' = inr r'.
Proof.
  intros Hinsert Hnames. unfold inject_stylesheet.
  destruct (String.eqb css_content EmptyString); [by eauto|].
  destruct (on_first "head" _ l) as [r|] eqn:Hhead.
  - intros _.
    destruct (on_first_names "head" _
                (λ contents, (contents ++ [style_tag css_content])%list)
                l l' Hnames (ex_intro _ _ Hhead)) as [r' ->].
    by eauto.
  - destruct (on_first "html" _ l) as [r|] eqn:Hhtml; [|by intros [? ?]].
    rewrite <-Hinsert. destruct (tag_insert L); [by intros [? ?]|]. intros _.
    destruct (on_first "head" _ l') as [r'|]; [by eauto|].
    destruct (on_first_names "html" _ (λ contents, Tag "head" [] [] :: contents)
                l l' Hnames (ex_intro _ _ Hhtml)) as [r' ->].
    by eauto.
Qed.

Lemma update_references_names L l resource_map output_path l' :
  update_references L l resource_map output_path = inr l' →
  (tags l').*1 = (tags l).*1.
Proof.
  intros [_ Hall]%update_references_frame.
  generalize dependent (tags l'). generalize (tags l).
  induction 1 as [|t t' ts ts' (Hname & _) _ IH]; [done|].
  by rewrite !fmap_cons, Hname, IH.
Qed.

Lemma locate_html_same L L' content :
  same_but_resources L L' → locate_html L content = locate_html L' content.
Proof.
  intros (Hsplit & _). unfold locate_html, split_parts.
  destruct (Re.search_boundary content) as [boundary|]; [|done].
  destruct (Re.atoms boundary); [done|]. by rewrite Hsplit.
Qed.

(** Whether the conversion succeeds does not depend on the fate of the
    resources. *)
Lemma process_same_outcome L L' file output_path resource_dir :
  same_but_resources L L' →
  (process L file output_path resource_dir).1
  = (process L' file output_path resource_dir).1.
Proof.
  intros Hsame. pose proof Hsame as (_ & Hsoup & Hmsg & Hinsert & Hwrite).
  unfold process, process_try. destruct file as [content|]; [|done].
  rewrite (locate_html_same L L' content Hsame).
  destruct (locate_html L' content) as [e|[parts html]]; [done|]. cbn -[extract_resources].
  rewrite Hsoup.
  destruct (BeautifulSoup L' html) as [e|l0]; [done|]. cbn -[extract_resources].
  rewrite Hmsg.
  destruct (empty_msg L' l0) as [e|l]; [done|]. cbn -[extract_resources].
  destruct (process_styles l) as [e|[l1 css_content]]; [done|]. cbn -[extract_resources].
  destruct (extract_resources L parts _) as [events m].
  destruct (extract_resources L' parts _) as [events' m'].
  rewrite (Hwrite output_path).
  destruct (update_references L l1 m output_path) as [e|l2] eqn:H2;
    destruct (update_references L' l1 m' output_path) as [e'|l2'] eqn:H2'; cbn -[extract_resources].
  - done.
  - destruct (update_references_raises L' L l1 m' m output_path output_path)
      as [? ?]; [by eauto|congruence].
  - destruct (update_references_raises L L' l1 m m' output_path output_path)
      as [? ?]; [by eauto|congruence].
  - assert ((tags l2).*1 = (tags l2').*1) as Hnames.
    { by rewrite (update_references_names _ _ _ _ _ H2),
                 (update_references_names _ _ _ _ _ H2'). }
    destruct (inject_stylesheet L css_content l2) as [e|l3] eqn:H3;
      destruct (inject_stylesheet L' css_content l2') as [e'|l3'] eqn:H3'; cbn -[extract_resources].
    + done.
    + destruct (inject_stylesheet_raises L' L css_content l2' l2)
        as [? ?]; [done|done|by eauto|congruence].
    + destruct (inject_stylesheet_raises L L' css_content l2 l2')
        as [? ?]; [done|done|by eauto|congruence].
    + by destruct (write_output L' output_path).
Qed.

(** ** The passes on a parsed tree *)

Lemma attr_get_None key (a : attrs) : key ∉ a.*1 → attr_get key a = None.
Proof.
  induction a as [|[k w] a IH]; [done|]. rewrite fmap_cons, not_elem_of_cons.
  intros [Hne Hin]. simpl. rewrite decide_False by done. by apply IH.
Qed.

Lemma attr_get_del_eq key (a : attrs) : NoDup a.*1 → attr_get key (attr_del key a) = None.
Proof.
  induction a as [|[k w] a IH]; [done|]. rewrite fmap_cons, NoDup_cons.
  intros [Hk Hnodup]. simpl. case_decide as Hkey.
  - subst k. by apply attr_get_None.
  - simpl. rewrite decide_False by done. by apply IH.
Qed.

Lemma attr_set_keys key v (a : attrs) :
  (attr_set key v a).*1 = if decide (key ∈ a.*1) then a.*1 else (a.*1 ++ [key])%list.
Proof.
  induction a as [|[k w] a IH]; [done|]. cbn [attr_set].
  destruct (decide (k = key)) as [->|Hk].
  - rewrite !fmap_cons. cbn [fst]. rewrite decide_True; [done|]. by left.
  - rewrite !fmap_cons, IH. cbn [fst].
    destruct (decide (key ∈ a.*1)) as [Hin|Hin].
    + rewrite decide_True; [done|]. by right.
    + rewrite decide_False; [done|]. rewrite not_elem_of_cons. by split.
Qed.

Lemma attr_set_NoDup key v (a : attrs) : NoDup a.*1 → NoDup (attr_set key v a).*1.
Proof.
  intros Ha. rewrite attr_set_keys. case_decide as Hin; [done|].
  apply NoDup_app. split_and!; [done| |apply NoDup_singleton].
  intros x Hx ->%list_elem_of_singleton. done.
Qed.

Lemma attr_del_NoDup key (a : attrs) : NoDup a.*1 → NoDup (attr_del key a).*1.
Proof.
  induction a as [|[k w] a IH]; [done|]. rewrite fmap_cons, NoDup_cons.
  intros [Hk Hnodup]. simpl. case_decide; [done|].
  rewrite fmap_cons, NoDup_cons. split; [|by apply IH].
  cbn [fst]. intros Hin. apply Hk. clear -Hin.
  induction a as [|[k' w'] a IH]; [done|]. simpl in Hin.
  case_decide; [rewrite fmap_cons; by right|].
  rewrite fmap_cons in Hin |- *. apply elem_of_cons in Hin as [->|Hin]; [by left|].
  right. by apply IH.
Qed.

Lemma restyled_clean c a :
  NoDup a.*1 → parsed_attrs a →
  inline_style (restyled c a) = None ∧ parsed_attrs (restyled c a) ∧
  NoDup (restyled c a).*1.
Proof.
  intros Hnodup [Hclass Hstr]. unfold restyled.
  pose proof (attr_set_NoDup "class" (AList (classes_of a ++ [c])) a Hnodup) as Hset.
  split_and!.
  - unfold inline_style. by rewrite attr_get_del_eq.
  - split.
    + intros s. by rewrite attr_get_del_ne, attr_get_set_eq.
    + intros key l Hkey.
      destruct (decide (key = "style")) as [->|Hstyle]; [by rewrite attr_get_del_eq|].
      rewrite attr_get_del_ne by done. rewrite attr_get_set_ne; [by apply Hstr|].
      intros <-. apply elem_of_cons in Hkey as [?|Hkey]; [done|].
      apply elem_of_cons in Hkey as [?|Hkey]; [done|].
      by apply elem_of_cons in Hkey as [?|?%elem_of_nil].
  - by apply attr_del_NoDup.
Qed.

Lemma Forall_omap_nil {A B : Type} (g : A → option B) (l : list A) :
  Forall (λ x, g x = None) l → omap g l = [].
Proof. induction 1 as [|x l Hx _ IH]; simpl; [done|]. by rewrite Hx. Qed.

Lemma restyled_tags_clean (c : string → string) (ts ts' : list (string * attrs)) :
  Forall (λ t, parsed_attrs t.2) ts → Forall (λ t, NoDup t.2.*1) ts →
  Forall2 (λ t t',
             t'.1 = t.1 ∧
             t'.2 = match inline_style t.2 with
                    | Some s => restyled (c s) t.2
                    | None => t.2
                    end) ts ts' →
  Forall (λ t, inline_style t.2 = None ∧ parsed_attrs t.2 ∧ NoDup t.2.*1) ts'.
Proof.
  intros Hparsed Hkeys Hall. revert Hparsed Hkeys.
  induction Hall as [|t t' ts ts' [_ Ht] _ IH]; [by constructor|].
  intros [Hp Hps]%Forall_cons [Hk Hks]%Forall_cons.
  constructor; [|by apply IH]. rewrite Ht.
  destruct (inline_style t.2) eqn:Hs; [by apply restyled_clean|done].
Qed.

Lemma reference_value_parsed name a :
  parsed_attrs a → ∃ value, reference_value name a = AStr value.
Proof.
  intros [_ Hstr]. unfold reference_value.
  assert (reference_attr name ∈ ["style"; "src"; "href"]) as Hkey.
  { unfold reference_attr. destruct (String.eqb name "img").
    - apply elem_of_cons. right. by left.
    - do 2 (apply elem_of_cons; right). by left. }
  destruct (attr_get (reference_attr name) a) as [[value|l]|] eqn:Hget; simpl.
  - by exists value.
  - by destruct (Hstr _ l Hkey).
  - by exists EmptyString.
Qed.

Lemma reference_step_parsed L m out name a :
  parsed_attrs a → ∃ a', reference_step L m out tt name a = inr (tt, a').
Proof.
  intros Hparsed. unfold reference_step. case_bool_decide; [|by eauto].
  fold (reference_attr name). fold (reference_value name a).
  destruct (reference_value_parsed name a Hparsed) as [value ->].
  destruct (m !! value); [|by eauto]. destruct (String.eqb _ _); by eauto.
Qed.

Lemma run_reference_parsed L m out ts :
  Forall (λ t, parsed_attrs t.2) ts →
  ∃ ts', run (reference_step L m out) tt ts = inr (tt, ts').
Proof.
  induction 1 as [|[name a] ts Ha _ [ts' IH]]; simpl; [by eauto|].
  destruct (reference_step_parsed L m out name a Ha) as [a' ->]. simpl.
  rewrite IH. simpl. by eauto.
Qed.

Lemma update_references_parsed L (l : soup) (m : gmap string string) out :
  parsed l → ∃ l', update_references L l m out = inr l'.
Proof.
  intros Hparsed. unfold update_references.
  pose proof (visit_run (reference_step L m out) l tt) as Hwalk.
  unfold walk_agrees in Hwalk.
  destruct (run_reference_parsed L m out (tags l) Hparsed) as [ts' Hts].
  destruct (visit _ tt l) as [e|[[] l']]; simpl; [congruence|]. by eauto.
Qed.

(** On a parsed tree with distinct attribute keys the style pass succeeds,
    and its result is a parsed tree with the same tag names. *)
Lemma process_styles_parsed (l : soup) :
  parsed l → dict_keys l →
  ∃ l1 css, process_styles l = inr (l1, css) ∧ parsed l1 ∧
            (tags l1).*1 = (tags l).*1.
Proof.
  intros Hparsed Hkeys. unfold process_styles.
  pose proof (visit_run style_step l style_start) as Hwalk. unfold walk_agrees in Hwalk.
  destruct (run_style_step_total _ Hparsed style_start) as [[st ts] Hrun].
  destruct (visit style_step style_start l) as [e|[st' l1]]; [congruence|].
  destruct Hwalk as [Hrun' _]. simpl. exists l1. eexists. split; [reflexivity|].
  destruct (run_style_step _ _ _ _ _ style_inv_start Hrun') as (_ & _ & Hall). split.
  - assert (Forall (λ t, inline_style t.2 = None ∧ parsed_attrs t.2 ∧ NoDup t.2.*1)
              (tags l1)) as Hclean
      by (by apply (restyled_tags_clean (λ s, default EmptyString (style_map st' !! s))
                      (tags l))).
    eapply Forall_impl; [exact Hclean|]. by intros t (_ & ? & _).
  - clear -Hall. induction Hall as [|t t' ts ts' [Hname _] _ IH]; [done|].
    by rewrite !fmap_cons, Hname, IH.
Qed.

(** The injection keeps every tag of the tree, in its place. *)
Lemma inject_stylesheet_keeps L css_content (l l' : soup) :
  inject_stylesheet L css_content l = inr l' → tags l `sublist_of` tags l'.
Proof.
  assert (∀ name g l l',
            (∀ contents, tags contents `sublist_of` tags (g contents)) →
            on_first name g l = Some l' → tags l `sublist_of` tags l') as Hon.
  { intros name g l0 l0' Hg Hfirst.
    pose proof (on_first_spec name g l0) as Hspec. rewrite Hfirst in Hspec.
    destruct Hspec as (pre & a & contents & post & -> & -> & _).
    apply sublist_app; [done|]. apply sublist_skip. by apply sublist_app. }
  unfold inject_stylesheet. destruct (String.eqb css_content EmptyString).
  { by intros [= <-]. }
  destruct (on_first "head" _ l) as [r|] eqn:Hhead.
  { intros [= <-]. eapply Hon; [|exact Hhead]. intros contents. cbv beta.
    rewrite tags_app. by apply sublist_inserts_r. }
  destruct (on_first "html" _ l) as [r|] eqn:Hhtml; [|done].
  destruct (tag_insert L); [done|]. intros [= <-].
  eapply Hon; [|exact Hhtml]. intros contents. cbv beta.
  change (tags (Tag "head" [] [] :: contents)) with (("head", []) :: tags contents).
  by apply sublist_cons.
Qed.

(** A page that the parser gives with a head is converted whatever became
    of the resources: the passes succeed and the tree they leave is
    written after the events of the resource calls. *)
Lemma process_parsed_page L content output_path resource_subdir parts html l0 l :
  locate_html L content = inr (parts, html) →
  BeautifulSoup L html = inr l0 →
  empty_msg L l0 = inr l →
  parsed l → dict_keys l → "head" ∈ (tags l).*1 →
  write_output L output_path = true →
  ∃ l1 css_content l2 l3,
    process_styles l = inr (l1, css_content) ∧
    update_references L l1
      (extract_resources L parts
         (Path.join (Path.dirname output_path) resource_subdir)).2 output_path
    = inr l2 ∧
    inject_stylesheet L css_content l2 = inr l3 ∧
    tags l2 `sublist_of` tags l3 ∧
    process L (Some content) output_path resource_subdir
    = (true,
       ((extract_resources L parts
           (Path.join (Path.dirname output_path) resource_subdir)).1
        ++ [WriteFile output_path (Str.encode_utf8 (str_soup L l3))])%list).
Proof.
  intros Hlocate Hsoup Hmsg Hparsed Hkeys Hhead Hwrite.
  destruct (process_styles_parsed l Hparsed Hkeys) as (l1 & css & Hstyles & Hparsed1 & Hnames1).
  set (rd := Path.join (Path.dirname output_path) resource_subdir).
  destruct (update_references_parsed L l1 (extract_resources L parts rd).2 output_path
              Hparsed1) as [l2 Hrefs].
  assert (∃ l3, inject_stylesheet L css l2 = inr l3) as [l3 Hinject].
  { unfold inject_stylesheet. destruct (String.eqb css EmptyString); [by eauto|].
    destruct (on_first_found "head"
                (λ contents, (contents ++ [style_tag css])%list) l2) as [l3 ->];
      [|by eauto].
    by rewrite (update_references_names _ _ _ _ _ Hrefs), Hnames1. }
  exists l1, css, l2, l3. split_and!; [done..| |].
  - by eapply inject_stylesheet_keeps.
  - unfold process, process_try. rewrite Hlocate. cbn -[extract_resources].
    rewrite Hsoup. cbn -[extract_resources]. rewrite Hmsg. cbn -[extract_resources].
    rewrite Hstyles. cbn -[extract_resources]. fold rd.
    destruct (extract_resources L parts rd) as [events m]. cbn [fst snd] in *.
    rewrite Hrefs. cbn. rewrite Hinject. cbn. by rewrite Hwrite.
Qed.

(** A successful conversion ends with the writing of the page. *)
Lemma process_success_writes L file output_path resource_dir :
  (process L file output_path resource_dir).1 = true →
  ∃ events l',
    (process L file output_path resource_dir).2
    = (events ++ [WriteFile output_path (Str.encode_utf8 (str_soup L l'))])%list.
Proof.
  unfold process, process_try. destruct file as [content|]; [|done].
  destruct (locate_html L content) as [e|[parts html]]; [done|]. cbn -[extract_resources].
  destruct (BeautifulSoup L html) as [e|l0]; [done|]. cbn -[extract_resources].
  destruct (empty_msg L l0) as [e|l]; [done|]. cbn -[extract_resources].
  destruct (process_styles l) as [e|[l1 css_content]]; [done|]. cbn -[extract_resources].
  destruct (extract_resources L parts _) as [events m].
  destruct (update_references L l1 m output_path) as [e|l2]; [done|]. cbn.
  destruct (inject_stylesheet L css_content l2) as [e|l3]; [done|]. cbn.
  destruct (write_output L output_path); [|done]. cbn. by eauto.
Qed.

(** C6.  A call of [save_resource] that fails, because the location is
    missing, the directory cannot be made, the body is not base64 or the
    file cannot be written, returns [None] and has written no file.  A
    location all of whose calls failed is not a key of the resource map,
    in whatever order the workers complete, and the reference pass leaves
    every attribute that holds that location as it was.  The conversion
    goes on whatever became of the resources: when the archive has an HTML
    part, the parser and the placeholder pass give a tree with a head, and
    the output file can be written, then the style pass, the reference
    pass with the map of this run and the injection succeed, and
    [process] returns [True] after writing, behind the events of the
    resource calls, the tree that the reference pass left, with the style
    element added to it.  Whether the conversion succeeds does not depend
    on the fate of the resources at all: a library that differs only
    there gives the same outcome, and a conversion that succeeds has
    written the page as its last step. *)
Theorem resource_failure_is_local (L : Library) (parts : list string)
    (resource_dir : string) :
  (∀ results, as_completed L results ≡ₚ results) →
  (∀ content_location content_type data encoding,
     let r := save_resource L content_location content_type data encoding
                resource_dir in
     (r.2 = None ↔
      content_location = None ∨
      makedirs L resource_dir = false ∨
      (encoding = "base64" ∧ b64decode L data = None) ∨
      ∃ location, content_location = Some location ∧
        write_resource L (resource_path resource_dir location content_type) = false) ∧
     (r.2 = None → ∀ path content, WriteFile path content ∉ r.1)) ∧
  (∀ location,
     (∀ j, j ∈ omap resource_job parts → job_location j = Some location →
           (run_job L resource_dir j).2 = None) →
     let resource_map := (extract_resources L parts resource_dir).2 in
     resource_map !! location = None ∧
     ∀ l output_path l',
       update_references L l resource_map output_path = inr l' →
       Forall2 (λ t t',
                  t'.1 = t.1 ∧
                  ∀ key, attr_get key t.2 = Some (AStr location) →
                         attr_get key t'.2 = Some (AStr location))
         (tags l) (tags l')) ∧
  (∀ content output_path resource_subdir html l0 l,
     locate_html L content = inr (parts, html) →
     BeautifulSoup L html = inr l0 →
     empty_msg L l0 = inr l →
     parsed l → dict_keys l → "head" ∈ (tags l).*1 →
     write_output L output_path = true →
     resource_dir = Path.join (Path.dirname output_path) resource_subdir →
     ∃ l1 css_content l2 l3,
       process_styles l = inr (l1, css_content) ∧
       update_references L l1 (extract_resources L parts resource_dir).2 output_path
       = inr l2 ∧
       inject_stylesheet L css_content l2 = inr l3 ∧
       tags l2 `sublist_of` tags l3 ∧
       process L (Some content) output_path resource_subdir
       = (true,
          ((extract_resources L parts resource_dir).1
           ++ [WriteFile output_path (Str.encode_utf8 (str_soup L l3))])%list)) ∧
  (∀ L' file output_path resource_subdir,
     same_but_resources L L' →
     (process L file output_path resource_subdir).1
     = (process L' file output_path resource_subdir).1) ∧
  (∀ file output_path resource_subdir,
     (process L file output_path resource_subdir).1 = true →
     ∃ events l',
       (process L file output_path resource_subdir).2
       = (events ++ [WriteFile output_path (Str.encode_utf8 (str_soup L l'))])%list).
Proof.
  intros Hperm. split_and!; [| | | |apply process_success_writes].
  - intros content_location content_type data encoding r. split.
    + apply save_resource_None.
    + intros Hnone path content. by apply save_resource_None_no_file.
  - intros location Hfail resource_map.
    assert (resource_map !! location = None) as Hnone
      by (by apply extract_resources_excludes).
    split; [done|]. intros l output_path l' Hpass.
    by eapply update_references_keeps.
  - intros content output_path resource_subdir html l0 l
      Hlocate Hsoup Hmsg Hparsed Hkeys Hhead Hwrite ->.
    by eapply process_parsed_page.
  - intros L' file output_path resource_subdir. apply process_same_outcome.
Qed.

Lemma sample_parts :
  split_parts (sample_library sample_page) "X.Y" sample_archive
  = Some ["MIME-Version: 1.0
Content-Type: multipart/related; boundary=" +:+ Re.DQUOTE +:+ "X.Y" +:+ Re.DQUOTE +:+ "

";
          "Content-Type: text/html

<html><head></head><body><img src=a.jpg><img src=b.png><p style=color:red>hi</p></body></html>
";
          "Content-Type: image/jpeg
Content-Transfer-Encoding: base64
Content-Location: a.jpg

/9j/4A==
";
          "Content-Type: image/png
Content-Transfer-Encoding: base64
Content-Location: b.png

abc
";
          EmptyString].
Proof. vm_compute. reflexivity. Qed.

(** The conversion of [sample_archive] succeeds although b.png cannot be
    decoded: a.jpg is stored and the page is written. *)
Lemma process_sample :
  process (sample_library sample_page) (Some sample_archive) "out/page.html" "images"
  = (true,
     [MakeDirs "out/images";
      WriteFile "out/images/a.jpg" [xff; xd8; xff; xe0]%byte;
      MakeDirs "out/images";
      WriteFile "out/page.html" []]).
Proof. vm_compute. reflexivity. Qed.

Lemma resource_failure_is_local_witness :
  let L := sample_library sample_page in
  let parts := default [] (split_parts L "X.Y" sample_archive) in
  let resource_map := (extract_resources L parts "out/images").2 in
  (resource_map !! "b.png" = None ∧
   ∀ l output_path l',
     update_references L l resource_map output_path = inr l' →
     Forall2 (λ t t',
                t'.1 = t.1 ∧
                ∀ key, attr_get key t.2 = Some (AStr "b.png") →
                       attr_get key t'.2 = Some (AStr "b.png"))
       (tags l) (tags l')) ∧
  ∃ l3,
    process L (Some sample_archive) "out/page.html" "images"
    = (true,
       [MakeDirs "out/images";
        WriteFile "out/images/a.jpg" [xff; xd8; xff; xe0]%byte;
        MakeDirs "out/images";
        WriteFile "out/page.html" (Str.encode_utf8 (str_soup L l3))]) ∧
    tags l3 = [("html", []); ("head", []); ("style", [("type", AStr "text/css")]);
               ("body", []);
               ("img", [("src", AStr "out/images/a.jpg")]);
               ("img", [("src", AStr "b.png")]);
               ("p", [("class", AList ["i-style-1"])])].
Proof.
  intros L parts resource_map.
  pose proof (resource_failure_is_local L parts "out/images"
                (λ results, reflexivity results)) as (_ & Hmap & Hpage & _).
  split.
  - apply Hmap. intros j Hin Hloc. apply list_elem_of_In in Hin. vm_compute in Hin.
    destruct Hin as [<-|[<-|[]]]; [discriminate Hloc|reflexivity].
  - assert (parsed sample_page) as Hparsed.
    { unfold parsed. simpl. repeat constructor; simpl; try done;
        intros key l; rewrite !elem_of_cons, elem_of_nil;
        intros [->|[->|[->|[]]]]; done. }
    assert (dict_keys sample_page) as Hkeys.
    { unfold dict_keys. simpl.
      repeat (constructor;
                [apply NoDup_ListNoDup; repeat constructor; simpl; intuition discriminate|]).
      constructor. }
    assert ("head" ∈ (tags sample_page).*1) as Hhead.
    { simpl. apply elem_of_cons. right. by left. }
    assert (locate_html L sample_archive
            = inr (parts, "<html><head></head><body><img src=a.jpg><img src=b.png><p style=color:red>hi</p></body></html>"))
      as Hlocate by (by vm_compute).
    destruct (Hpage sample_archive "out/page.html" "images" _ sample_page sample_page
                Hlocate eq_refl eq_refl Hparsed Hkeys Hhead eq_refl eq_refl)
      as (l1 & css & l2 & l3 & Hstyles & Hrefs & Hinject & _ & Hrun).
    exists l3. split.
    + rewrite Hrun. f_equal.
    + vm_compute in Hstyles. injection Hstyles as <- <-.
      vm_compute in Hrefs. injection Hrefs as <-.
      vm_compute in Hinject. by injection Hinject as <-.
Defined.

(** ** A reference attribute that was not there *)

(** On the page of [sample_archive] the pass rewrites the reference to the
    stored image and leaves the other one. *)
Lemma update_references_sample :
  update_references (sample_library []) sample_page
    {[ "a.jpg" := "out/images/a.jpg" ]} "out/page.html"
  = inr [Tag "html" []
           [Tag "head" [] [];
            Tag "body" []
              [Tag "img" [("src", AStr "out/images/a.jpg")] [];
               Tag "img" [("src", AStr "b.png")] [];
               Tag "p" [("style", AStr "color:red")] [NavigableString "hi"]]]].
Proof. by vm_compute. Qed.

(** C5.  The reference pass reads an absent attribute as the empty string.
    A part whose Content-Location header is empty is submitted like any
    other (the loop that counts the resources skips it, the loop that
    submits them does not) and is stored under the empty key.  With that
    key in the map a script tag without any attribute gets an [href]: the
    pass changes a tag none of whose attributes has a key of the map as
    its value. *)
Theorem reference_added_to_bare_tag (L : Library) :
  extract_resources (sample_library []) ["Content-Type: image/gif
Content-Transfer-Encoding: base64
Content-Location:

R0lG
"] "out/images"
  = ([MakeDirs "out/images"; WriteFile "out/images/.gif" [x47; x49; x46]%byte],
     {[ EmptyString := "out/images/.gif" ]}) ∧
  update_references L
    [Tag "body" [] [Tag "script" [] [NavigableString "go()"]]]
    {[ EmptyString := "out/images/.gif" ]} "out/page.html"
  = inr [Tag "body" []
           [Tag "script" [("href", AStr (relpath L "out/images/.gif" "out"))]
              [NavigableString "go()"]]].
Proof. split; by vm_compute. Qed.

(** * Further properties *)

(** ** Trimming and case *)

Lemma rstrip_fixed_tail c s :
  Str.rstrip (String c s) = String c s → Str.rstrip s = s.
Proof.
  simpl. destruct (Str.rstrip s) as [|d r] eqn:Hr.
  - destruct (Str.isspace c); [done|]. by intros [= <-].
  - by intros [= <-].
Qed.

Lemma rstrip_lstrip s : Str.rstrip s = s → Str.rstrip (Str.lstrip s) = Str.lstrip s.
Proof.
  induction s as [|c s IH]; [done|]. intros Hs. cbn [Str.lstrip].
  destruct (Str.isspace c); [|done]. by apply IH, (rstrip_fixed_tail c).
Qed.

Lemma rstrip_idem s : Str.rstrip (Str.rstrip s) = Str.rstrip s.
Proof.
  induction s as [|c s IH]; [done|]. cbn [Str.rstrip].
  destruct (Str.rstrip s) as [|d r] eqn:Hr.
  - destruct (Str.isspace c) eqn:Hc; [done|]. simpl. by rewrite Hc.
  - cbn [Str.rstrip]. cbn [Str.rstrip] in IH. by rewrite IH.
Qed.

Lemma lstrip_idem s : Str.lstrip (Str.lstrip s) = Str.lstrip s.
Proof.
  induction s as [|c s IH]; [done|]. cbn [Str.lstrip].
  destruct (Str.isspace c) eqn:Hc; [done|]. cbn [Str.lstrip]. by rewrite Hc.
Qed.

Lemma strip_idem s : Str.strip (Str.strip s) = Str.strip s.
Proof.
  unfold Str.strip. rewrite (rstrip_lstrip (Str.rstrip s)) by apply rstrip_idem.
  apply lstrip_idem.
Qed.

Lemma isspace_lower_char c : Str.isspace (Str.lower_char c) = Str.isspace c.
Proof. by destruct c as [[] [] [] [] [] [] [] []]. Qed.

Lemma lower_char_idem c : Str.lower_char (Str.lower_char c) = Str.lower_char c.
Proof. by destruct c as [[] [] [] [] [] [] [] []]. Qed.

Lemma lower_idem s : Str.lower (Str.lower s) = Str.lower s.
Proof. induction s as [|c s IH]; simpl; [done|]. by rewrite lower_char_idem, IH. Qed.

Lemma lstrip_lower s : Str.lstrip (Str.lower s) = Str.lower (Str.lstrip s).
Proof.
  induction s as [|c s IH]; [done|]. simpl. rewrite isspace_lower_char.
  by destruct (Str.isspace c).
Qed.

Lemma rstrip_lower s : Str.rstrip (Str.lower s) = Str.lower (Str.rstrip s).
Proof.
  induction s as [|c s IH]; [done|]. simpl. rewrite IH, isspace_lower_char.
  destruct (Str.rstrip s); simpl; [by destruct (Str.isspace c)|done].
Qed.

Lemma strip_lower s : Str.strip (Str.lower s) = Str.lower (Str.strip s).
Proof. unfold Str.strip. by rewrite rstrip_lower, lstrip_lower. Qed.

Lemma has_char_lstrip c s : Str.has_char c s = false → Str.has_char c (Str.lstrip s) = false.
Proof.
  induction s as [|d s IH]; [done|]. cbn [Str.lstrip].
  destruct (Str.isspace d); [|done]. simpl. case_decide; [done|]. apply IH.
Qed.

Lemma has_char_rstrip c s : Str.has_char c s = false → Str.has_char c (Str.rstrip s) = false.
Proof.
  induction s as [|d s IH]; [done|]. simpl. case_decide as Hd; [done|].
  intros Hs. specialize (IH Hs). destruct (Str.rstrip s) as [|e r].
  - destruct (Str.isspace d); [done|]. simpl. by rewrite decide_False.
  - simpl. rewrite decide_False by done. exact IH.
Qed.

Lemma has_char_strip c s : Str.has_char c s = false → Str.has_char c (Str.strip s) = false.
Proof. intros Hs. by apply has_char_lstrip, has_char_rstrip. Qed.

(** Lower-casing neither makes nor removes a colon or a line feed. *)
Lemma has_char_lower c s :
  c = ":"%char ∨ c = "010"%char →
  Str.has_char c (Str.lower s) = Str.has_char c s.
Proof.
  intros Hc. induction s as [|d s IH]; [done|]. simpl. rewrite IH.
  assert (c = Str.lower_char d ↔ c = d) as Hiff.
  { destruct Hc as [->| ->]; by destruct d as [[] [] [] [] [] [] [] []]. }
  repeat case_decide; done || by (exfalso; tauto).
Qed.

(** ** Header parser: the shape of keys and values, and composition *)

(** X1.  Every key of the mapping that [parse_headers] returns is trimmed,
    in lower case and free of colons and line feeds, and every value is
    trimmed and free of line feeds. *)
Theorem parse_headers_normalised (headers_str k v : string) :
  parse_headers headers_str !! k = Some v →
  (Str.strip k = k ∧ Str.lower k = k ∧
   Str.has_char ":" k = false ∧ Str.has_char "010" k = false) ∧
  (Str.strip v = v ∧ Str.has_char "010" v = false).
Proof.
  intros (before & key & value & after & Hlines & Hkey & <- & <- & _)%parse_lines_lookup.
  assert (Str.has_char "010" (key +:+ String ":" value) = false) as Hlf.
  { pose proof (split_no_sep "010" headers_str) as Hall.
    rewrite Hlines in Hall. apply Forall_app in Hall as [_ Hall].
    by apply Forall_cons in Hall as [? _]. }
  rewrite has_char_app in Hlf. apply orb_false_elim in Hlf as [Hlf1 Hlf2].
  simpl in Hlf2. split; split_and!.
  - by rewrite <-strip_lower, strip_idem.
  - apply lower_idem.
  - rewrite has_char_lower by (by left). by apply has_char_strip.
  - rewrite has_char_lower by (by right). by apply has_char_strip.
  - apply strip_idem.
  - by apply has_char_strip.
Qed.

Lemma parse_headers_normalised_witness :
  (Str.strip "content-type" = "content-type" ∧
   Str.lower "content-type" = "content-type" ∧
   Str.has_char ":" "content-type" = false ∧
   Str.has_char "010" "content-type" = false) ∧
  (Str.strip "image/png; name=a" = "image/png; name=a" ∧
   Str.has_char "010" "image/png; name=a" = false).
Proof.
  apply (parse_headers_normalised "  Content-TYPE :  image/png; name=a
Content-Location: a.png").
  reflexivity.
Defined.

Lemma split_app c s w :
  Str.split c (s +:+ String c w) = (Str.split c s ++ Str.split c w)%list.
Proof.
  induction s as [|d s IH]; simpl.
  - by rewrite decide_True.
  - case_decide; rewrite IH; [done|].
    by destruct (split_is_cons c s) as [x [xs ->]].
Qed.

Lemma parse_lines_union lines headers :
  foldl parse_header_line headers lines
  = foldl parse_header_line ∅ lines ∪ headers.
Proof.
  induction lines as [|x lines IH] using rev_ind.
  - simpl. by rewrite (left_id_L ∅ (∪)).
  - rewrite !foldl_snoc, IH. unfold parse_header_line.
    destruct (Str.has_char ":" x); [|done].
    destruct (Str.partition ":" x) as [[key sep] value].
    by rewrite insert_union_l.
Qed.

(** X2.  Parsing two blocks joined by a line feed gives the union of the
    two mappings in which, for a key of both, the second block wins. *)
Theorem parse_headers_app (first second : string) :
  parse_headers (first +:+ Re.LF +:+ second)
  = parse_headers second ∪ parse_headers first.
Proof.
  unfold parse_headers.
  change (first +:+ Re.LF +:+ second) with (first +:+ String "010" second).
  rewrite split_app, foldl_app. apply parse_lines_union.
Qed.

(** ** The submitting loop *)

Lemma hd_split_no_sep c s : Str.has_char c (List.hd EmptyString (Str.split c s)) = false.
Proof.
  pose proof (split_no_sep c s) as Hall.
  destruct (split_is_cons c s) as [w [ws Hs]]. rewrite Hs in Hall |- *.
  by apply Forall_cons in Hall as [? _].
Qed.

(** X3.  A part is submitted for extraction only if it contains the
    header name Content-Location: spelled in exactly that case.  The
    content type handed over then has no semicolon (the parameters of the
    header are dropped) and does not start with text/html; the location,
    when the header block has one, is trimmed and without line feed; and
    the body is trimmed. *)
Theorem resource_job_submitted (part : string) (j : job) :
  resource_job part = Some j →
  Str.contains "Content-Location:" part = true ∧
  Str.has_char ";" (job_type j) = false ∧
  Str.startswith "text/html" (job_type j) = false ∧
  (∀ location, job_location j = Some location →
               Str.strip location = location ∧
               Str.has_char "010" location = false) ∧
  Str.strip (job_data j) = job_data j.
Proof.
  unfold resource_job.
  destruct (Str.contains "Content-Location:" part); [|done]. cbn [negb].
  destruct (Str.partition (Re.LF +:+ Re.LF) part) as [[headers_str sep] body].
  match goal with
  | |- context [Str.startswith "text/html" ?x] =>
      destruct (Str.startswith "text/html" x) eqn:Hhtml; [done|]
  end.
  intros [= <-]. cbn [job_location job_type job_data]. split_and!; try done.
  - apply hd_split_no_sep.
  - intros location
      (before & key & value & after & Hlines & Hkey & _ & <- & _)%parse_lines_lookup.
    split; [apply strip_idem|]. apply has_char_strip.
    pose proof (split_no_sep "010" headers_str) as Hall.
    rewrite Hlines in Hall. apply Forall_app in Hall as [_ Hall].
    apply Forall_cons in Hall as [Hline _]. rewrite has_char_app in Hline.
    by apply orb_false_elim in Hline as [_ Hline].
  - apply strip_idem.
Qed.

Lemma resource_job_submitted_witness :
  Str.contains "Content-Location:" "Content-Type: image/png; name=a
Content-Location:  a.png 

iVBORw==
" = true ∧
  Str.has_char ";" "image/png" = false ∧
  Str.startswith "text/html" "image/png" = false ∧
  (∀ location, Some "a.png" = Some location →
               Str.strip location = location ∧
               Str.has_char "010" location = false) ∧
  Str.strip "iVBORw==" = "iVBORw==".
Proof.
  apply (resource_job_submitted "Content-Type: image/png; name=a
Content-Location:  a.png 

iVBORw==
" {| job_location := Some "a.png"; job_type := "image/png";
     job_data := "iVBORw=="; job_encoding := "7bit" |}).
  reflexivity.
Defined.

(** ** Resource extractor: traces and the resource map *)



Lemma save_resource_result L content_location content_type data encoding resource_dir k v :
  (save_resource L content_location content_type data encoding resource_dir).2
  = Some (k, v) →
  content_location = Some k ∧ v = resource_path resource_dir k content_type ∧
  ∃ content,
    (save_resource L content_location content_type data encoding resource_dir).1
    = [MakeDirs resource_dir; WriteFile v content].
Proof.
  unfold save_resource, save_resource_try, resource_path.
  destruct content_location as [location|]; [|done].
  destruct (makedirs L resource_dir); simpl; [|done].
  destruct (if String.eqb encoding "base64" then _ else _) as [bytes|]; simpl; [|done].
  destruct (write_resource L _); simpl; [|done]. intros [= <- <-]. by eauto.
Qed.


Lemma collect_member results k v :
  Some (k, v) ∈ results → is_Some (collect results !! k).
Proof.
  unfold collect. induction results as [|r results IH] using rev_ind;
    [by intros ?%elem_of_nil|].
  rewrite foldl_snoc. intros [Hin|Hin%list_elem_of_singleton]%elem_of_app; [|subst r].
  - destruct r as [[k' v']|]; [|by apply IH].
    destruct (decide (k' = k)) as [->|Hne]; [by rewrite lookup_insert_eq|].
    rewrite lookup_insert_ne by done. by apply IH.
  - by rewrite lookup_insert_eq.
Qed.

Lemma elem_of_concat {A : Type} (x : A) (ls : list (list A)) :
  x ∈ concat ls ↔ ∃ l, x ∈ l ∧ l ∈ ls.
Proof.
  induction ls as [|l0 ls IH]; simpl.
  - split; [by intros ?%elem_of_nil|]. by intros (l & _ & ?%elem_of_nil).
  - rewrite elem_of_app, IH. split.
    + intros [Hx|(l & Hx & Hl)].
      * exists l0. split; [done|by left].
      * exists l. split; [done|by right].
    + intros (l & Hx & [->|Hl]%elem_of_cons); [by left|]. right. by exists l.
Qed.


(** X5.  Every entry of the resource map comes from a submitted part with
    that location, its value is the path under which that part was stored,
    and a file was written at that path in this run; and the location of
    every part that was stored is a key of the map.  This holds in
    whatever order the workers complete. *)
Theorem resource_map_sound (L : Library) (parts : list string) (resource_dir : string) :
  (∀ results, as_completed L results ≡ₚ results) →
  (∀ k v,
     (extract_resources L parts resource_dir).2 !! k = Some v →
     ∃ j content,
       j ∈ omap resource_job parts ∧ job_location j = Some k ∧
       v = resource_path resource_dir k (job_type j) ∧
       WriteFile v content ∈ (extract_resources L parts resource_dir).1) ∧
  (∀ j k v,
     j ∈ omap resource_job parts →
     (run_job L resource_dir j).2 = Some (k, v) →
     is_Some ((extract_resources L parts resource_dir).2 !! k)).
Proof.
  intros Hperm. split.
  - intros k v Hv. unfold extract_resources in Hv. simpl in Hv.
    apply collect_lookup in Hv. rewrite Hperm in Hv.
    apply list_elem_of_fmap in Hv as ([events r] & Hr & Hin). simpl in Hr. subst r.
    apply list_elem_of_fmap in Hin as (j & Hj & Hin).
    assert ((run_job L resource_dir j).2 = Some (k, v)) as Hrun by (by rewrite <-Hj).
    unfold run_job in Hrun.
    apply save_resource_result in Hrun as (Hloc & Hpath & content & Hevents).
    exists j, content. split_and!; [done..|].
    unfold extract_resources. simpl. apply elem_of_concat.
    exists [MakeDirs resource_dir; WriteFile v content]. split.
    + apply elem_of_cons. right. by left.
    + apply list_elem_of_fmap. exists (run_job L resource_dir j).
      split; [done|]. apply list_elem_of_fmap. by exists j.
  - intros j k v Hj Hrun. unfold extract_resources. simpl.
    apply (collect_member _ k v). rewrite Hperm.
    apply list_elem_of_fmap. exists (run_job L resource_dir j).
    split; [done|]. apply list_elem_of_fmap. by exists j.
Qed.

Lemma resource_map_sound_witness :
  let L := sample_library sample_page in
  let parts := default [] (split_parts L "X.Y" sample_archive) in
  (∀ k v,
     (extract_resources L parts "out/images").2 !! k = Some v →
     ∃ j content,
       j ∈ omap resource_job parts ∧ job_location j = Some k ∧
       v = resource_path "out/images" k (job_type j) ∧
       WriteFile v content ∈ (extract_resources L parts "out/images").1) ∧
  (∀ j k v,
     j ∈ omap resource_job parts →
     (run_job L "out/images" j).2 = Some (k, v) →
     is_Some ((extract_resources L parts "out/images").2 !! k)).
Proof.
  intros L parts.
  apply (resource_map_sound L parts "out/images" (λ results, reflexivity results)).
Defined.

Lemma collect_consistent results k v :
  (∀ k v v', Some (k, v) ∈ results → Some (k, v') ∈ results → v = v') →
  collect results !! k = Some v ↔ Some (k, v) ∈ results.
Proof.
  intros Hsame. split; [apply collect_lookup|].
  intros Hin. destruct (collect_member _ _ _ Hin) as [v' Hv'].
  rewrite Hv'. f_equal. apply collect_lookup in Hv'. by eapply Hsame.
Qed.

(** X6.  When the parts that share a location also share their content
    type, the resource map does not depend on the order in which the
    workers complete: it is the map filled in the order of submission. *)
Theorem resource_map_order (L : Library) (parts : list string) (resource_dir : string) :
  (∀ results, as_completed L results ≡ₚ results) →
  (∀ j1 j2, j1 ∈ omap resource_job parts → j2 ∈ omap resource_job parts →
            job_location j1 = job_location j2 → job_type j1 = job_type j2) →
  (extract_resources L parts resource_dir).2
  = collect (List.map snd (List.map (run_job L resource_dir) (omap resource_job parts))).
Proof.
  intros Hperm Htypes. unfold extract_resources. simpl.
  set (results := List.map snd (List.map (run_job L resource_dir) (omap resource_job parts))).
  assert (∀ k v v', Some (k, v) ∈ results → Some (k, v') ∈ results → v = v') as Hsame.
  { intros k v v' Hv Hv'.
    assert (∀ w, Some (k, w) ∈ results →
                 ∃ j, j ∈ omap resource_job parts ∧ job_location j = Some k ∧
                      w = resource_path resource_dir k (job_type j)) as Hjob.
    { intros w Hw. apply list_elem_of_fmap in Hw as ([events r] & Hr & Hin).
      simpl in Hr. subst r. apply list_elem_of_fmap in Hin as (j & Hj & Hin).
      assert ((run_job L resource_dir j).2 = Some (k, w)) as Hrun by (by rewrite <-Hj).
      unfold run_job in Hrun. apply save_resource_result in Hrun as (? & ? & _).
      by exists j. }
    destruct (Hjob v Hv) as (j1 & Hj1 & Hl1 & ->).
    destruct (Hjob v' Hv') as (j2 & Hj2 & Hl2 & ->).
    by rewrite (Htypes j1 j2 Hj1 Hj2) by congruence. }
  apply map_eq. intros k. apply option_eq. intros v.
  rewrite (collect_consistent results k v Hsame).
  rewrite collect_consistent.
  - by rewrite Hperm.
  - intros k' w w'. rewrite !Hperm. apply Hsame.
Qed.

Lemma resource_map_order_witness :
  let L := reversed_library [] in
  List.map snd (List.map (run_job L "out/images") (omap resource_job shared_parts))
  = [Some ("a.jpg", "out/images/a.jpg"); Some ("a.jpg", "out/images/a.jpg");
     Some ("b.png", "out/images/b.png")] ∧
  as_completed L (List.map snd (List.map (run_job L "out/images")
                                  (omap resource_job shared_parts)))
  = [Some ("b.png", "out/images/b.png"); Some ("a.jpg", "out/images/a.jpg");
     Some ("a.jpg", "out/images/a.jpg")] ∧
  (extract_resources L shared_parts "out/images").2
  = collect (List.map snd (List.map (run_job L "out/images")
                             (omap resource_job shared_parts))).
Proof.
  intros L. split_and!; [by vm_compute..|].
  apply (resource_map_order L shared_parts "out/images"
           (λ results, Permutation_sym (Permutation_rev results))).
  intros j1 j2 H1 H2.
  apply list_elem_of_In in H1. apply list_elem_of_In in H2.
  vm_compute in H1. vm_compute in H2.
  destruct H1 as [<-|[<-|[<-|[]]]], H2 as [<-|[<-|[<-|[]]]]; intros Hloc;
    solve [reflexivity | discriminate Hloc].
Defined.

(** ** Orchestrator: what a run may leave on disk *)


(** ** Style pass: a second run *)

(** X8.  On a parsed tree whose tags have distinct attribute keys, the
    tree that the style pass returns has no inline style left but blank
    ones, is again a parsed tree with distinct keys, and a second run of
    the pass on it changes nothing and gives the empty style sheet. *)
Theorem process_styles_twice (l l' : soup) (css : string) :
  parsed l → dict_keys l →
  process_styles l = inr (l', css) →
  inline_styles l' = [] ∧ parsed l' ∧ dict_keys l' ∧
  process_styles l' = inr (l', EmptyString).
Proof.
  intros Hparsed Hkeys. unfold process_styles at 1.
  pose proof (visit_run style_step l style_start) as Hwalk. unfold walk_agrees in Hwalk.
  destruct (visit style_step style_start l) as [e|[st l'']]; simpl; [done|].
  intros [= -> <-]. destruct Hwalk as [Hrun _].
  destruct (run_style_step _ _ _ _ _ style_inv_start Hrun) as (_ & _ & Hall).
  assert (Forall (λ t, inline_style t.2 = None ∧ parsed_attrs t.2 ∧ NoDup t.2.*1)
            (tags l')) as Hclean.
  { by apply (restyled_tags_clean (λ s, default EmptyString (style_map st !! s)) (tags l)). }
  assert (inline_styles l' = []) as Hnone.
  { apply Forall_omap_nil. eapply Forall_impl; [exact Hclean|]. by intros t (? & _). }
  assert (parsed l') as Hparsed'.
  { eapply Forall_impl; [exact Hclean|]. by intros t (_ & ? & _). }
  split_and!; [done..| |].
  - eapply Forall_impl; [exact Hclean|]. by intros t (_ & _ & ?).
  - unfold process_styles.
    rewrite (visit_unchanged style_step style_start l'); [done|].
    eapply Forall_impl; [exact Hclean|].
    intros [name a] (Hs & Hp & _). by apply style_step_plain.
Qed.

Lemma process_styles_twice_witness :
  inline_styles
    [Tag "html" []
       [Tag "head" [] [];
        Tag "body" []
          [Tag "p" [("class", AList ["i-style-1"])] [NavigableString "a"];
           Tag "p" [("class", AList ["note"; "i-style-1"])] [NavigableString "b"];
           Tag "p" [("class", AList ["i-style-2"])] []]]] = [] ∧
  process_styles
    [Tag "html" []
       [Tag "head" [] [];
        Tag "body" []
          [Tag "p" [("class", AList ["i-style-1"])] [NavigableString "a"];
           Tag "p" [("class", AList ["note"; "i-style-1"])] [NavigableString "b"];
           Tag "p" [("class", AList ["i-style-2"])] []]]]
  = inr ([Tag "html" []
            [Tag "head" [] [];
             Tag "body" []
               [Tag "p" [("class", AList ["i-style-1"])] [NavigableString "a"];
                Tag "p" [("class", AList ["note"; "i-style-1"])] [NavigableString "b"];
                Tag "p" [("class", AList ["i-style-2"])] []]]],
         EmptyString).
Proof.
  assert (parsed sample_styled) as Hparsed.
  { unfold parsed. simpl. repeat constructor; simpl; try done;
      intros key l; rewrite !elem_of_cons, elem_of_nil;
      intros [->|[->|[->|[]]]]; done. }
  assert (dict_keys sample_styled) as Hkeys.
  { unfold dict_keys. simpl.
    repeat (constructor;
              [apply NoDup_ListNoDup; repeat constructor; simpl; intuition discriminate|]).
    constructor. }
  destruct (process_styles_twice sample_styled _ _ Hparsed Hkeys process_styles_sample)
    as (Hnone & _ & _ & Htwice).
  by split.
Defined.

(** ** Reference pass on a parsed tree *)

(** X9.  On a parsed tree the reference pass does not raise; it keeps names,
    nesting and text, and every img, link or script tag whose reference
    attribute holds a key of the resource map bound to a non-empty path
    holds afterwards that path relative to the directory of the output
    file. *)
Theorem update_references_rewrites L (l : soup) (m : gmap string string) out :
  parsed l →
  ∃ l', update_references L l m out = inr l' ∧
        skeleton l' = skeleton l ∧
        Forall2 (λ t t',
                   t'.1 = t.1 ∧
                   ∀ value path,
                     t.1 ∈ ["img"; "link"; "script"] →
                     attr_get (reference_attr t.1) t.2 = Some (AStr value) →
                     m !! value = Some path → path ≠ EmptyString →
                     attr_get (reference_attr t.1) t'.2
                     = Some (AStr (relpath L path (Path.dirname out))))
          (tags l) (tags l').
Proof.
  intros Hparsed. unfold update_references.
  pose proof (visit_run (reference_step L m out) l tt) as Hwalk.
  unfold walk_agrees in Hwalk.
  destruct (run_reference_parsed L m out (tags l) Hparsed) as [ts' Hts].
  destruct (visit _ tt l) as [e|[[] l']]; simpl; [congruence|].
  destruct Hwalk as [Hrun Hsk]. exists l'. split_and!; [done..|].
  apply run_stateless in Hrun. eapply Forall2_impl; [exact Hrun|].
  intros [name a] [name' a'] [Hname Hstep]. simpl in *. split; [done|].
  intros value path Hin Hget Hpath Hne. revert Hstep. unfold reference_step.
  rewrite bool_decide_eq_true_2 by done. fold (reference_attr name).
  rewrite Hget. simpl. rewrite Hpath.
  destruct (String.eqb_spec path EmptyString) as [?|_]; [done|].
  intros [= <-]. apply attr_get_set_eq.
Qed.

Lemma update_references_rewrites_witness :
  ∃ l', update_references (sample_library [])
          [Tag "body" [] [Tag "img" [("src", AStr "http://x/a.jpg")] []]]
          {[ "http://x/a.jpg" := "out/page_files/a.jpg" ]} "out/page.html" = inr l'.
Proof.
  destruct (update_references_rewrites (sample_library [])
              [Tag "body" [] [Tag "img" [("src", AStr "http://x/a.jpg")] []]]
              {[ "http://x/a.jpg" := "out/page_files/a.jpg" ]} "out/page.html")
    as (l' & Hrun & _).
  - unfold parsed. simpl. repeat constructor; simpl; try done;
      intros key l; rewrite !elem_of_cons, elem_of_nil;
      intros [->|[->|[->|[]]]]; done.
  - by exists l'.
Defined.

Lemma reference_steps_miss L (l : soup) (m : gmap string string) out :
  parsed l →
  Forall (λ t, t.1 ∈ ["img"; "link"; "script"] →
               ∀ value, reference_value t.1 t.2 = AStr value →
                        m !! value = None ∨ m !! value = Some EmptyString) (tags l) →
  Forall (λ t, reference_step L m out tt t.1 t.2 = inr (tt, t.2)) (tags l).
Proof.
  unfold parsed. intros Hparsed Hmiss.
  induction Hmiss as [|[name a] ts Hmiss _ IH]; [constructor|].
  apply Forall_cons in Hparsed as [Ha Hts]. constructor; [|by apply IH].
  simpl in *. unfold reference_step. case_bool_decide as Hname; [|done].
  fold (reference_attr name). fold (reference_value name a).
  destruct (reference_value_parsed name a Ha) as [value Hvalue]. rewrite Hvalue.
  by destruct (Hmiss Hname value Hvalue) as [-> | ->].
Qed.

(** X10.  On a parsed tree in which no img, link or script tag refers to a
    key of the resource map bound to a non-empty path (an absent attribute
    counting as the empty string), the reference pass returns the tree as
    it was; with the empty map this is every parsed tree. *)
Theorem update_references_unchanged L (l : soup) (m : gmap string string) out :
  parsed l →
  Forall (λ t, t.1 ∈ ["img"; "link"; "script"] →
               ∀ value, reference_value t.1 t.2 = AStr value →
                        m !! value = None ∨ m !! value = Some EmptyString) (tags l) →
  update_references L l m out = inr l.
Proof.
  intros Hparsed Hmiss. unfold update_references.
  rewrite (visit_unchanged (reference_step L m out) tt l); [done|].
  by apply reference_steps_miss.
Qed.

Lemma update_references_unchanged_witness :
  update_references (sample_library [])
    [Tag "body" [] [Tag "img" [("src", AStr "http://x/a.jpg")] []; Tag "script" [] []]]
    ∅ "out/page.html"
  = inr [Tag "body" [] [Tag "img" [("src", AStr "http://x/a.jpg")] []; Tag "script" [] []]].
Proof.
  apply update_references_unchanged.
  - unfold parsed. simpl. repeat constructor; simpl; try done;
      intros key l; rewrite !elem_of_cons, elem_of_nil;
      intros [->|[->|[->|[]]]]; done.
  - simpl. repeat constructor; intros _ value _; by left.
Defined.

(** ** Style sheet injection with a head *)

(** [on_first] in terms of the tree: the tag it changes stands in a
    context with no tag of that name before the hole, and nothing but the
    contents of that tag changes. *)
Lemma on_first_list_plug name g (l : soup) :
  Forall (λ n, ∀ before after,
            name ∉ (tags before).*1 →
            match on_first_node name g n with
            | None => name ∉ (tags_node n).*1
            | Some n' =>
                ∃ c a contents,
                  (before ++ n :: after)%list = plug c (Tag name a contents) ∧
                  (before ++ n' :: after)%list = plug c (Tag name a (g contents)) ∧
                  name ∉ (before_hole c).*1
            end) l →
  ∀ before,
    name ∉ (tags before).*1 →
    match on_first name g l with
    | None => name ∉ (tags l).*1
    | Some l' =>
        ∃ c a contents,
          (before ++ l)%list = plug c (Tag name a contents) ∧
          (before ++ l')%list = plug c (Tag name a (g contents)) ∧
          name ∉ (before_hole c).*1
    end.
Proof.
  induction 1 as [|n l Hn _ IH]; intros before Hbefore; simpl;
    [by intros ?%elem_of_nil|].
  specialize (Hn before l Hbefore).
  destruct (on_first_node name g n) as [n'|]; [done|].
  assert (name ∉ (tags (before ++ [n])%list).*1) as Hbefore'.
  { rewrite tags_app, fmap_app. simpl. rewrite app_nil_r.
    intros [?|?]%elem_of_app; done. }
  specialize (IH (before ++ [n])%list Hbefore').
  destruct (on_first name g l) as [l'|]; simpl.
  - destruct IH as (c & a & contents & Hl & Hl' & Hc).
    exists c, a, contents. rewrite <-!app_assoc in Hl, Hl'. by split_and!.
  - rewrite fmap_app. intros [?|?]%elem_of_app; done.
Qed.

Lemma on_first_node_plug name g (n : node) before after :
  name ∉ (tags before).*1 →
  match on_first_node name g n with
  | None => name ∉ (tags_node n).*1
  | Some n' =>
      ∃ c a contents,
        (before ++ n :: after)%list = plug c (Tag name a contents) ∧
        (before ++ n' :: after)%list = plug c (Tag name a (g contents)) ∧
        name ∉ (before_hole c).*1
  end.
Proof.
  revert before after.
  induction n as [s|nm a contents IH] using node_ind'; intros before after Hbefore;
    [by intros ?%elem_of_nil|].
  rewrite on_first_node_Tag. case_decide as Hnm.
  - subst nm. by exists (Here before after), a, contents.
  - pose proof (on_first_list_plug name g contents IH []) as Hl.
    destruct (on_first name g contents) as [contents'|]; simpl.
    + destruct Hl as (c & a' & inner & Hl & Hl' & Hc); [by intros ?%elem_of_nil|].
      simpl in Hl, Hl'. exists (Inside before nm a c after), a', inner.
      simpl. rewrite Hl, Hl'. split_and!; [done..|].
      rewrite fmap_app, fmap_cons. simpl.
      intros [?|[?|?]%elem_of_cons]%elem_of_app; done.
    + change (flat_map tags_node contents) with (tags contents).
      intros [?|?]%elem_of_cons; [done|].
      by apply Hl; [intros ?%elem_of_nil|].
Qed.

Lemma on_first_plug name g (l l' : soup) :
  on_first name g l = Some l' →
  ∃ c a contents,
    l = plug c (Tag name a contents) ∧
    l' = plug c (Tag name a (g contents)) ∧
    name ∉ (before_hole c).*1.
Proof.
  intros Hfirst.
  assert (name ∉ (tags []).*1) as Hnil by (by intros ?%elem_of_nil).
  pose proof (on_first_list_plug name g l) as Hl.
  rewrite Hfirst in Hl. apply (Hl (proj2 (Forall_forall _ _)
                                     (λ n _ before after, on_first_node_plug name g n before after))
                                 [] Hnil).
Qed.

(** X11.  With a head in the tree the injection does not raise, whatever
    the installed library.  An empty style sheet leaves the tree as it
    is.  With a non-empty one the tree is the same but for the first head
    in document order (no head stands before it or around it), which has
    got the style element, of type text/css and with the style sheet as
    its text, as its last child. *)
Theorem stylesheet_appended (L : Library) (css_content : string) (l : soup) :
  "head" ∈ (tags l).*1 →
  ∃ l', inject_stylesheet L css_content l = inr l' ∧
        (css_content = EmptyString → l' = l) ∧
        (css_content ≠ EmptyString →
         ∃ c a contents,
           l = plug c (Tag "head" a contents) ∧
           l' = plug c (Tag "head" a
                          ((contents
                            ++ [Tag "style" [("type", AStr "text/css")]
                                  [NavigableString css_content]])%list)) ∧
           "head" ∉ (before_hole c).*1).
Proof.
  intros Hhead. unfold inject_stylesheet.
  destruct (String.eqb_spec css_content EmptyString) as [->|Hcss].
  - exists l. by split_and!.
  - destruct (on_first_found "head"
                (λ contents, (contents ++ [style_tag css_content])%list) l Hhead)
      as [l' Hfirst].
    rewrite Hfirst. exists l'. split_and!; [done..|]. intros _.
    destruct (on_first_plug _ _ _ _ Hfirst) as (c & a & contents & Hl & Hl' & Hc).
    by exists c, a, contents.
Qed.

Lemma stylesheet_appended_witness :
  inject_stylesheet (sample_library []) ".i-style-1 { color:red }"
    [Tag "html" []
       [Tag "head" [] [Tag "title" [] [NavigableString "t"]];
        Tag "body" [] [Tag "p" [] []]]]
  = inr [Tag "html" []
           [Tag "head" []
              [Tag "title" [] [NavigableString "t"];
               Tag "style" [("type", AStr "text/css")]
                 [NavigableString ".i-style-1 { color:red }"]];
            Tag "body" [] [Tag "p" [] []]]].
Proof.
  destruct (stylesheet_appended (sample_library []) ".i-style-1 { color:red }"
              [Tag "html" []
                 [Tag "head" [] [Tag "title" [] [NavigableString "t"]];
                  Tag "body" [] [Tag "p" [] []]]])
    as (l' & Hrun & _ & _).
  - simpl. apply elem_of_cons. right. by left.
  - rewrite Hrun. revert Hrun. vm_compute. by intros [= <-].
Defined.

(** ** The regular expressions *)

Lemma startswith_prefix p s t :
  Str.startswith p s = true → Str.startswith p (s +:+ t) = true.
Proof.
  revert s. induction p as [|c p IH]; intros [|d s]; simpl; try done.
  case_decide; [|done]. apply IH.
Qed.

Lemma lazy_body_spec s :
  ∃ rest,
    s = Re.lazy_body s +:+ rest ∧
    Str.contains (Re.LF +:+ "--") (Re.lazy_body s) = false ∧
    ((rest = EmptyString ∧ Str.endswith_char "010" (Re.lazy_body s) = false) ∨
     rest = Re.LF ∨
     Str.startswith (Re.LF +:+ "--") rest = true).
Proof.
  induction s as [|c s (rest & Hs & Hno & Hrest)].
  - exists EmptyString. split_and!; [done..|]. by left.
  - cbn [Re.lazy_body].
    destruct (Str.startswith (Re.LF +:+ "--") (String c s)) eqn:Hstart.
    { exists (String c s). split_and!; [done..|]. by right; right. }
    destruct (String.eqb_spec (String c s) Re.LF) as [Heq|Hne].
    { exists (String c s). split_and!; [done..|]. right. by left. }
    exists rest. split_and!.
    + change (String c s = String c (Re.lazy_body s +:+ rest)). by rewrite <-Hs.
    + cbn [Str.contains].
      destruct (Str.startswith (Re.LF +:+ "--") (String c (Re.lazy_body s))) eqn:Hpre;
        [|done].
      apply (startswith_prefix _ _ rest) in Hpre.
      change (String c (Re.lazy_body s) +:+ rest)
        with (String c (Re.lazy_body s +:+ rest)) in Hpre.
      rewrite <-Hs in Hpre. congruence.
    + destruct Hrest as [[-> Hend]|Hrest]; [|by right]. left. split; [done|].
      destruct (Re.lazy_body s) as [|d body] eqn:Hbody; [|done].
      simpl in Hs. subst s. simpl. case_decide as Hc; [|done]. by subst c.
Qed.

(** X12.  What the search for the HTML body (line 147) returns: the part
    is cut at its first blank line, two line feeds or two CR LF pairs; the
    body starts after it, holds no line feed followed by two dashes, and
    ends where the part ends, before the last line feed of the part, or
    before the first line feed that two dashes follow. *)
Theorem search_html_spec (html_part body : string) :
  Re.search_html html_part = Some body →
  ∃ head sep rest,
    html_part = head +:+ sep +:+ body +:+ rest ∧
    (sep = Re.LF +:+ Re.LF ∨ sep = Re.CR +:+ Re.LF +:+ Re.CR +:+ Re.LF) ∧
    (∀ i, (i < String.length head)%nat →
          Str.startswith (Re.LF +:+ Re.LF) (Str.drop i html_part) = false ∧
          Str.startswith (Re.CR +:+ Re.LF +:+ Re.CR +:+ Re.LF) (Str.drop i html_part)
          = false) ∧
    Str.contains (Re.LF +:+ "--") body = false ∧
    ((rest = EmptyString ∧ Str.endswith_char "010" body = false) ∨
     rest = Re.LF ∨
     Str.startswith (Re.LF +:+ "--") rest = true).
Proof.
  induction html_part as [|c s IH]; [done|].
  cbn [Re.search_html].
  destruct (Str.startswith (Re.LF +:+ Re.LF) (String c s)) eqn:Hlf.
  { intros [= <-]. apply startswith_inv in Hlf.
    destruct (lazy_body_spec (Str.drop 2 (String c s))) as (rest & Hs & Hno & Hrest).
    exists EmptyString, (Re.LF +:+ Re.LF), rest. split_and!; try done.
    - rewrite Hlf at 1. change (String.length (Re.LF +:+ Re.LF)) with 2%nat.
      by rewrite Hs at 1.
    - by left.
    - intros i Hi. simpl in Hi. lia. }
  destruct (Str.startswith (Re.CR +:+ Re.LF +:+ Re.CR +:+ Re.LF) (String c s)) eqn:Hcr.
  { intros [= <-]. apply startswith_inv in Hcr.
    destruct (lazy_body_spec (Str.drop 4 (String c s))) as (rest & Hs & Hno & Hrest).
    exists EmptyString, (Re.CR +:+ Re.LF +:+ Re.CR +:+ Re.LF), rest.
    split_and!; try done.
    - rewrite Hcr at 1.
      change (String.length (Re.CR +:+ Re.LF +:+ Re.CR +:+ Re.LF)) with 4%nat.
      by rewrite Hs at 1.
    - by right.
    - intros i Hi. simpl in Hi. lia. }
  intros Hsearch. destruct (IH Hsearch) as (head & sep & rest & Hs & Hsep & Hfirst & Hno & Hrest).
  exists (String c head), sep, rest. split_and!; try done.
  - change (String c s = String c (head +:+ sep +:+ body +:+ rest)). by rewrite <-Hs.
  - intros [|i] Hi; [done|]. apply Hfirst. simpl in Hi. lia.
Qed.

Lemma search_html_spec_witness :
  ∃ head sep rest,
    "Content-Type: text/html

<html>
<!-- saved page
-->
</html>" = head +:+ sep +:+ "<html>
<!-- saved page" +:+ rest ∧
    (sep = Re.LF +:+ Re.LF ∨ sep = Re.CR +:+ Re.LF +:+ Re.CR +:+ Re.LF).
Proof.
  destruct (search_html_spec "Content-Type: text/html

<html>
<!-- saved page
-->
</html>" "<html>
<!-- saved page" eq_refl) as (head & sep & rest & Hs & Hsep & _).
  by exists head, sep, rest.
Defined.

(** X13.  What the search for the boundary (line 137) returns: a non-empty
    token without a double quote that stands between the word boundary,
    an equals sign and a double quote on one side and the next double
    quote on the other, taken from the first such declaration of the
    archive: no declaration with a non-empty token starts before it. *)
Theorem search_boundary_spec (content b : string) :
  Re.search_boundary content = Some b →
  Str.has_char "034" b = false ∧ b ≠ EmptyString ∧
  ∃ pre post,
    content = pre +:+ "boundary=" +:+ Re.DQUOTE +:+ b +:+ Re.DQUOTE +:+ post ∧
    ∀ pre' b' post',
      content = pre' +:+ "boundary=" +:+ Re.DQUOTE +:+ b' +:+ Re.DQUOTE +:+ post' →
      Str.has_char "034" b' = false → b' ≠ EmptyString →
      (String.length pre ≤ String.length pre')%nat.
Proof.
  induction content as [|c s IH].
  - cbn [Re.search_boundary]. by destruct (Re.boundary_here EmptyString) eqn:Hhere.
  - cbn [Re.search_boundary].
    destruct (Re.boundary_here (String c s)) as [b0|] eqn:Hhere.
    + intros [= ->]. apply boundary_here_Some in Hhere as ([post Hs] & Hb & Hne).
      split_and!; [done..|]. exists EmptyString, post. split; [done|].
      intros pre' b' post' _ _ _. simpl. lia.
    + intros Hsearch. destruct (IH Hsearch) as (Hb & Hne & pre & post & Hs & Hfirst).
      split_and!; [done..|]. exists (String c pre), post. split.
      * change (String c s = String c (pre +:+ "boundary=" +:+ Re.DQUOTE +:+ b
                                         +:+ Re.DQUOTE +:+ post)).
        by rewrite <-Hs.
      * intros [|c' pre'] b' post' Hs' Hb' Hne'.
        { assert (Re.boundary_here (String c s) = Some b') as Hsome.
          { apply boundary_here_Some. split_and!; [|done..]. by exists post'. }
          congruence. }
        change (String c s = String c' (pre' +:+ "boundary=" +:+ Re.DQUOTE +:+ b'
                                          +:+ Re.DQUOTE +:+ post')) in Hs'.
        injection Hs' as _ Hs'. specialize (Hfirst pre' b' post' Hs' Hb' Hne').
        simpl. lia.
Qed.

Lemma search_boundary_spec_witness :
  Str.has_char "034" "X.Y" = false ∧ "X.Y" ≠ EmptyString.
Proof.
  destruct (search_boundary_spec sample_archive "X.Y" eq_refl) as (Hb & Hne & _).
  by split.
Defined.

(** ** The split at the boundary markers *)

Lemma length_app_str s t :
  String.length (s +:+ t) = (String.length s + String.length t)%nat.
Proof. induction s as [|c s IH]; simpl; [done|]. by rewrite IH. Qed.

Lemma match_atoms_Some p s r :
  Re.match_atoms p s = Some r →
  ∃ m, s = m +:+ r ∧ String.length m = length p.
Proof.
  revert s. induction p as [|[c|] p IH]; intros s; simpl.
  - intros [= ->]. by exists EmptyString.
  - destruct s as [|d s]; [done|]. case_decide; [|done]. subst d.
    intros (m & -> & Hm)%IH. exists (String c m). simpl. by rewrite Hm.
  - destruct s as [|d s]; [done|]. case_decide; [done|].
    intros (m & -> & Hm)%IH. exists (String d m). simpl. by rewrite Hm.
Qed.

Lemma match_marker_Some b s n :
  Re.match_marker b s = Some n →
  (3 ≤ n)%nat ∧ ∃ m t, s = m +:+ t ∧ String.length m = n.
Proof.
  unfold Re.match_marker.
  destruct (Re.strip_prefix "--" s) as [r0|] eqn:H0; [|done].
  apply strip_prefix_Some in H0 as ->. cbn [mbind option_bind].
  destruct (Re.match_atoms b r0) as [r1|] eqn:H1; [|done].
  apply match_atoms_Some in H1 as (m & -> & Hm). cbn [mbind option_bind].
  destruct (Re.strip_prefix "--" r1 ≫= Re.strip_prefix Re.LF) as [t|] eqn:H2.
  - intros [= <-]. split; [lia|].
    destruct (Re.strip_prefix "--" r1) as [r2|] eqn:H3; [|done].
    apply strip_prefix_Some in H3 as ->. simpl in H2.
    apply strip_prefix_Some in H2 as ->.
    exists ("--" +:+ m +:+ "--" +:+ Re.LF), t. split.
    + by rewrite !app_assoc_str.
    + rewrite !length_app_str, Hm. simpl. lia.
  - destruct (Re.strip_prefix Re.LF r1) as [t|] eqn:H3; [|done].
    apply strip_prefix_Some in H3 as ->. simpl. intros [= <-]. split; [lia|].
    exists ("--" +:+ m +:+ Re.LF), t. split.
    + by rewrite !app_assoc_str.
    + rewrite !length_app_str, Hm. simpl. lia.
Qed.

Lemma split_marker_skip b k s :
  Re.split_marker b k s = Re.split_marker b 0 (Str.drop k s).
Proof.
  revert k. induction s as [|c s IH]; intros [|k]; try done.
  cbn [Re.split_marker Str.drop]. apply IH.
Qed.

Lemma weave_cons c first rest :
  weave (String c first) rest = String c (weave first rest).
Proof. by destruct rest as [|[marker part] rest]. Qed.

Lemma cut_at_markers_cons b c first rest :
  Re.match_marker b (String c (weave first rest)) = None →
  cut_at_markers b first rest → cut_at_markers b (String c first) rest.
Proof.
  intros Hnone Hcut.
  assert (∀ i, (i < String.length (String c first))%nat →
               Re.match_marker b (Str.drop i (weave (String c first) rest)) = None)
    as Hfirst.
  { rewrite weave_cons. intros [|i] Hi; [done|].
    destruct rest as [|[marker part] rest]; apply Hcut; simpl in Hi; lia. }
  destruct rest as [|[marker part] rest]; (split; [exact Hfirst|]); [done|].
  apply Hcut.
Qed.

Lemma split_marker_cut b n :
  ∀ s, (String.length s ≤ n)%nat →
       ∃ first rest,
         Re.split_marker b 0 s = first :: rest.*2 ∧
         s = weave first rest ∧
         cut_at_markers b first rest.
Proof.
  induction n as [|n IH]; intros s Hlen.
  { destruct s; [|simpl in Hlen; lia]. exists EmptyString, []. split_and!; try done.
    split; [|done]. intros i Hi. simpl in Hi. lia. }
  destruct s as [|c s].
  { exists EmptyString, []. split_and!; try done.
    split; [|done]. intros i Hi. simpl in Hi. lia. }
  cbn [Re.split_marker].
  destruct (Re.match_marker b (String c s)) as [k|] eqn:Hhere.
  - destruct (match_marker_Some _ _ _ Hhere) as (Hk & m & t & Hs & Hm).
    destruct k as [|k]; [lia|].
    rewrite split_marker_skip.
    assert (Str.drop k s = t) as ->.
    { change (Str.drop k s) with (Str.drop (S k) (String c s)).
      by rewrite Hs, <-Hm, drop_app. }
    destruct (IH t) as (first & rest & Hsplit & Ht & Hcut).
    { apply (f_equal String.length) in Hs. rewrite length_app_str in Hs.
      simpl in Hs, Hlen. lia. }
    exists EmptyString, ((m, first) :: rest). split_and!.
    + by rewrite Hsplit.
    + simpl. by rewrite <-Ht.
    + split; [intros i Hi; simpl in Hi; lia|]. split; [|done].
      by rewrite <-Ht, <-Hs, Hm.
  - destruct (IH s) as (first & rest & Hsplit & Hs & Hcut); [simpl in Hlen; lia|].
    rewrite Hsplit. exists (String c first), rest. split_and!; [done| |].
    + by rewrite weave_cons, <-Hs.
    + apply cut_at_markers_cons; [|done]. by rewrite <-Hs.
Qed.

(** X14.  What the split at the boundary markers (line 141) gives, for a
    boundary of plain characters and dots: a first part and one more part
    for every marker, never the empty list; the archive is these parts
    with the markers put back between them; each marker is a match of the
    pattern (two dashes, the boundary, two dashes if they are there, a
    line feed) where it stands; and no match starts inside a part, up to
    the marker that ends it. *)
Theorem split_parts_weave (L : Library) (boundary content : string) (b : list Re.atom) :
  Re.atoms boundary = Some b →
  ∃ first rest,
    split_parts L boundary content = Some (first :: rest.*2) ∧
    content = weave first rest ∧
    cut_at_markers b first rest.
Proof.
  intros Hb. unfold split_parts. rewrite Hb.
  destruct (split_marker_cut b (String.length content) content) as
    (first & rest & -> & Hs & Hcut); [done|].
  by exists first, rest.
Qed.

Lemma split_parts_weave_witness :
  ∃ first rest,
    split_parts (sample_library []) "X.Y" sample_archive = Some (first :: rest.*2) ∧
    sample_archive = weave first rest.
Proof.
  destruct (split_parts_weave (sample_library []) "X.Y" sample_archive
              [Re.Lit "X"; Re.Dot; Re.Lit "Y"] eq_refl)
    as (first & rest & Hsplit & Hs & _).
  by exists first, rest.
Defined.

(** ** The total of the progress bar *)

Lemma count_resource_add total part :
  count_resource total part = (total + count_resource 0 part)%nat.
Proof.
  unfold count_resource. destruct (negb _); [lia|].
  destruct (Str.partition _ part) as [[headers_str sep] body].
  destruct (parse_headers headers_str !! "content-location") as [location|]; [|lia].
  destruct (String.eqb location EmptyString); lia.
Qed.

Lemma foldl_count_resource total parts :
  foldl count_resource total parts = (total + total_resources parts)%nat.
Proof.
  unfold total_resources. revert total.
  induction parts as [|part parts IH]; intros total; simpl; [lia|].
  rewrite IH, (IH (count_resource 0 part)), (count_resource_add total part). lia.
Qed.

Lemma located_job_counted part j location :
  resource_job part = Some j → job_location j = Some location →
  location ≠ EmptyString → count_resource 0 part = 1%nat.
Proof.
  unfold resource_job, count_resource.
  destruct (negb (Str.contains "Content-Location:" part)); [done|].
  destruct (Str.partition (Re.LF +:+ Re.LF) part) as [[headers_str sep] body].
  match goal with
  | |- context [Str.startswith "text/html" ?x] =>
      destruct (Str.startswith "text/html" x); [done|]
  end.
  intros [= <-]. cbn [job_location]. intros -> Hne.
  by destruct (String.eqb_spec location EmptyString).
Qed.

(** X15.  The total that the counting loop gives the progress bar bounds
    the number of calls that store a resource with a non-empty location,
    and so the number of progress updates they make: every part submitted
    with a non-empty location was counted. *)
Theorem total_resources_bound (L : Library) (parts : list string) (resource_dir : string) :
  (length (List.filter saved_located
             (List.map snd (List.map (run_job L resource_dir) (omap resource_job parts))))
   ≤ total_resources parts)%nat.
Proof.
  induction parts as [|part parts IH]; [done|].
  unfold total_resources. cbn [foldl omap list_omap].
  rewrite foldl_count_resource.
  destruct (resource_job part) as [j|] eqn:Hjob; [|lia].
  cbn [List.map List.filter].
  destruct (saved_located (run_job L resource_dir j).2) eqn:Hsaved; [|lia].
  unfold saved_located in Hsaved.
  destruct (run_job L resource_dir j).2 as [[location file_path]|] eqn:Hrun; [|done].
  apply save_resource_Some in Hrun.
  destruct (String.eqb_spec location EmptyString) as [|Hne]; [done|].
  rewrite (located_job_counted part j location Hjob Hrun Hne). simpl. lia.
Qed.

(** ** A page that needs no change *)

(** X16.  The passes compose to the identity on a page that gives them
    nothing to do: when the archive has an HTML part, the tree that the
    parser and the placeholder pass give has no inline style but blank
    ones and its img, link and script tags refer to no stored resource,
    and the output file can be written, the conversion succeeds, and
    after the events of the resource calls it writes that very tree, as
    text, to the output path. *)
Theorem process_plain_page (L : Library) (content output_path resource_dir : string)
    (parts : list string) (html : string) (l0 l : soup) :
  locate_html L content = inr (parts, html) →
  BeautifulSoup L html = inr l0 →
  empty_msg L l0 = inr l →
  parsed l → inline_styles l = [] →
  Forall (λ t, t.1 ∈ ["img"; "link"; "script"] →
               ∀ value, reference_value t.1 t.2 = AStr value →
                        (extract_resources L parts
                           (Path.join (Path.dirname output_path) resource_dir)).2
                        !! value = None) (tags l) →
  write_output L output_path = true →
  process L (Some content) output_path resource_dir
  = (true,
     ((extract_resources L parts
         (Path.join (Path.dirname output_path) resource_dir)).1
      ++ [WriteFile output_path (Str.encode_utf8 (str_soup L l))])%list).
Proof.
  intros Hlocate Hsoup Hmsg Hparsed Hnone%omap_nil_Forall Hmiss Hwrite.
  unfold process, process_try. rewrite Hlocate. cbn -[extract_resources].
  rewrite Hsoup. cbn -[extract_resources]. rewrite Hmsg. cbn -[extract_resources].
  assert (process_styles l = inr (l, EmptyString)) as ->.
  { unfold process_styles.
    rewrite (visit_unchanged style_step style_start l); [done|].
    unfold parsed in Hparsed. rewrite Forall_forall in Hparsed, Hnone |- *.
    intros [name a] Hin.
    apply style_step_plain; [apply (Hparsed _ Hin)|apply (Hnone _ Hin)]. }
  cbn -[extract_resources].
  destruct (extract_resources L parts _) as [events m] eqn:Hextract.
  cbn [fst snd] in *.
  assert (update_references L l m output_path = inr l) as ->.
  { unfold update_references.
    rewrite (visit_unchanged (reference_step L m output_path) tt l); [done|].
    apply reference_steps_miss; [done|].
    eapply Forall_impl; [exact Hmiss|]. intros t Ht Hname value Hvalue.
    left. by apply Ht. }
  cbn. by rewrite Hwrite.
Qed.

Lemma process_plain_page_witness :
  process (sample_library [Tag "html" [] [Tag "body" [] [NavigableString "hi"]]])
    (Some dashed_archive) "out/page.html" "images"
  = (true, [WriteFile "out/page.html" []]).
Proof.
  set (l := [Tag "html" [] [Tag "body" [] [NavigableString "hi"]]]).
  destruct (locate_html (sample_library l) dashed_archive) as [e|[parts html]] eqn:Hlocate;
    [by vm_compute in Hlocate|].
  assert (parsed l) as Hparsed.
  { unfold parsed. simpl. repeat constructor; simpl; try done;
      intros key l'; rewrite !elem_of_cons, elem_of_nil;
      intros [->|[->|[->|[]]]]; done. }
  rewrite (process_plain_page (sample_library l) dashed_archive "out/page.html" "images"
             parts html l l Hlocate eq_refl eq_refl Hparsed eq_refl).
  - vm_compute in Hlocate. injection Hlocate as <- <-. vm_compute. reflexivity.
  - simpl. repeat constructor; simpl; intros Hin; exfalso; revert Hin;
      rewrite !elem_of_cons, elem_of_nil; intuition discriminate.
  - reflexivity.
Defined.

(** ** When there is a style sheet *)

Lemma join_rules_nonempty (rule : nat → string → string) (seen : list string) :
  (∀ i s, ∃ tail, rule i s = String "." tail) →
  Str.join Re.LF (imap rule seen) = EmptyString → seen = [].
Proof.
  intros Hrule. destruct seen as [|s seen]; [done|].
  destruct (Hrule 0%nat s) as [tail Htail]. cbn [imap].
  destruct (imap (rule ∘ S) seen) as [|y ys]; simpl; by rewrite Htail.
Qed.

(** X17.  The style pass returns the empty style sheet exactly when no
    tag of the tree has a non-blank inline style; so the conversion adds
    a style element to the page only if the pass has given some tag a
    class. *)
Theorem style_sheet_empty_iff (l l' : soup) (css : string) :
  process_styles l = inr (l', css) →
  css = EmptyString ↔ inline_styles l = [].
Proof.
  unfold process_styles.
  pose proof (visit_run style_step l style_start) as Hwalk. unfold walk_agrees in Hwalk.
  destruct (visit style_step style_start l) as [e|[st l'']]; simpl; [done|].
  intros [= -> <-]. destruct Hwalk as [Hrun _].
  destruct (run_style_step _ _ _ _ _ style_inv_start Hrun) as ((_ & _ & Hrules & _) & _).
  fold (inline_styles l) in Hrules. fold (first_seen (inline_styles l)) in Hrules.
  rewrite Hrules. split.
  - intros Hseen. apply join_rules_nonempty in Hseen.
    + destruct (inline_styles l) as [|s styles]; [done|].
      assert (s ∈ first_seen (s :: styles)) as Hin by (apply first_seen_elem; by left).
      rewrite Hseen in Hin. by apply elem_of_nil in Hin.
    + intros i s. unfold css_rule. by eexists.
  - by intros ->.
Qed.

Lemma style_sheet_empty_iff_witness :
  ".i-style-1 { color:red }
.i-style-2 { margin:0 }" = EmptyString ↔ inline_styles sample_styled = [].
Proof. exact (style_sheet_empty_iff sample_styled _ _ process_styles_sample). Defined.

(** ** White space at the end of a header line *)

Lemma isspace_not_colon w : Str.isspace w = true → w ≠ ":"%char.
Proof. by intros Hw ->. Qed.

Lemma parse_header_line_space headers line w :
  Str.isspace w = true →
  parse_header_line headers (line +:+ String w EmptyString)
  = parse_header_line headers line.
Proof.
  intros Hw. pose proof (isspace_not_colon w Hw) as Hcolon.
  destruct (Str.has_char ":" line) eqn:Hline.
  - apply has_char_split in Hline as (key & value & -> & Hkey).
    rewrite app_assoc_str.
    change (String ":" value +:+ String w EmptyString)
      with (String ":" (value +:+ String w EmptyString)).
    rewrite !parse_header_line_colon by done.
    unfold Str.strip. by rewrite rstrip_app_space.
  - rewrite !parse_header_line_plain; [done..|].
    rewrite has_char_app, Hline. simpl. by rewrite decide_False by done.
Qed.

Lemma split_snoc_char c s w :
  c ≠ w →
  ∃ ws x, Str.split c s = (ws ++ [x])%list ∧
          Str.split c (s +:+ String w EmptyString)
          = (ws ++ [x +:+ String w EmptyString])%list.
Proof.
  intros Hw. induction s as [|d s (ws & x & Hs & Hsw)]; simpl.
  - exists [], EmptyString. by rewrite decide_False.
  - rewrite Hs, Hsw. case_decide.
    + by exists (EmptyString :: ws), x.
    + destruct ws as [|y ws]; simpl.
      * by exists [], (String d x).
      * by exists (String d y :: ws), x.
Qed.

Lemma parse_headers_snoc_space s w :
  Str.isspace w = true →
  parse_headers (s +:+ String w EmptyString) = parse_headers s.
Proof.
  intros Hw. unfold parse_headers.
  destruct (decide ("010"%char = w)) as [<-|Hlf].
  - rewrite split_app. simpl. by rewrite foldl_snoc.
  - destruct (split_snoc_char "010" s w Hlf) as (ws & x & -> & ->).
    rewrite !foldl_snoc. by apply parse_header_line_space.
Qed.

(** X18.  White space at the end of a header line does not count: a
    white-space character before a line feed of the block, or at the end
    of the block, leaves the mapping as it is.  In particular a block
    whose lines end in CR LF is read like the block with bare line
    feeds. *)
Theorem parse_headers_trailing_space (first second : string) (w : ascii) :
  Str.isspace w = true →
  parse_headers (first +:+ String w EmptyString +:+ Re.LF +:+ second)
  = parse_headers (first +:+ Re.LF +:+ second) ∧
  parse_headers (first +:+ String w EmptyString) = parse_headers first.
Proof.
  intros Hw. split; [|by apply parse_headers_snoc_space].
  rewrite <-app_assoc_str.
  change ((first +:+ String w EmptyString) +:+ Re.LF +:+ second)
    with ((first +:+ String w EmptyString) +:+ String "010" second).
  change (first +:+ Re.LF +:+ second) with (first +:+ String "010" second).
  unfold parse_headers at 1 2. rewrite !split_app, !foldl_app.
  rewrite (parse_lines_union (Str.split "010" second)).
  rewrite (parse_lines_union (Str.split "010" second)
             (foldl parse_header_line ∅ (Str.split "010" first))).
  fold (parse_headers (first +:+ String w EmptyString)). fold (parse_headers first).
  by rewrite parse_headers_snoc_space.
Qed.

Lemma parse_headers_trailing_space_witness :
  parse_headers ("Content-Type: image/png" +:+ Re.CR +:+ Re.LF +:+ "Content-Location: a.png")
  = parse_headers ("Content-Type: image/png" +:+ Re.LF +:+ "Content-Location: a.png").
Proof.
  apply (parse_headers_trailing_space "Content-Type: image/png"
           "Content-Location: a.png" "013"). reflexivity.
Defined.
